(** * Usage telemetry of CLIProxyAPI: a shallow embedding in Rocq

    Sources embedded here:
    - internal/usage/database_plugin.go : the SQLite usage store
      (ConfigureDatabase, normalizeDatabaseOptions, configsEqual, HandleUsage,
      credentialLabel, credentialFingerprint, fingerprint, enqueue, insert,
      applyRetention, close);
    - internal/usage/otlp_plugin.go : the OTLP exporter (NewOTLPPlugin,
      HandleUsage, SetEnabled, SetEndpoint, GetEndpoint, flushBatch, Close)
      and its package-level wrappers (RegisterOTLPPlugin, OTLPEnabled,
      SetOTLPEnabled, OTLPEndpoint, SetOTLPEndpoint);
    - internal/api/handlers/management/otlp.go : the management handlers
      of the OTLP settings.

    Go strings are byte strings; they are Rocq [string]s (lists of 8-bit
    [ascii]).  Go [int]/[int64] counters stored in SQLite are [Z]. *)

From Stdlib Require Import ZArith List Lia Bool Ascii String.
From stdpp Require Import base gmap strings list.
Import ListNotations.

Local Open Scope Z_scope.

(* ------------------------------------------------------------------ *)
(** ** crypto/sha256 and encoding/hex *)

Module Sha256.

Definition word_mask (x : Z) : Z := Z.land x (Z.ones 32).
Definition add32 (x y : Z) : Z := word_mask (x + y).
Definition rotr (n x : Z) : Z :=
  word_mask (Z.lor (Z.shiftr x n) (Z.shiftl x (32 - n))).
Definition big_sigma0 (x : Z) : Z :=
  Z.lxor (Z.lxor (rotr 2 x) (rotr 13 x)) (rotr 22 x).
Definition big_sigma1 (x : Z) : Z :=
  Z.lxor (Z.lxor (rotr 6 x) (rotr 11 x)) (rotr 25 x).
Definition small_sigma0 (x : Z) : Z :=
  Z.lxor (Z.lxor (rotr 7 x) (rotr 18 x)) (Z.shiftr x 3).
Definition small_sigma1 (x : Z) : Z :=
  Z.lxor (Z.lxor (rotr 17 x) (rotr 19 x)) (Z.shiftr x 10).
Definition choose (x y z : Z) : Z :=
  Z.lxor (Z.land x y) (Z.land (word_mask (Z.lnot x)) z).
Definition majority (x y z : Z) : Z :=
  Z.lxor (Z.lxor (Z.land x y) (Z.land x z)) (Z.land y z).

(** FIPS 180-4 section 4.2.2, in decimal. *)
Definition round_constants : list Z :=
  [1116352408; 1899447441; 3049323471; 3921009573; 961987163; 1508970993;
   2453635748; 2870763221; 3624381080; 310598401; 607225278; 1426881987;
   1925078388; 2162078206; 2614888103; 3248222580; 3835390401; 4022224774;
   264347078; 604807628; 770255983; 1249150122; 1555081692; 1996064986;
   2554220882; 2821834349; 2952996808; 3210313671; 3336571891; 3584528711;
   113926993; 338241895; 666307205; 773529912; 1294757372; 1396182291;
   1695183700; 1986661051; 2177026350; 2456956037; 2730485921; 2820302411;
   3259730800; 3345764771; 3516065817; 3600352804; 4094571909; 275423344;
   430227734; 506948616; 659060556; 883997877; 958139571; 1322822218;
   1537002063; 1747873779; 1955562222; 2024104815; 2227730452; 2361852424;
   2428436474; 2756734187; 3204031479; 3329325298].

(** The eight chaining words of the digest. *)
Record state := mkState {
  h0 : Z; h1 : Z; h2 : Z; h3 : Z; h4 : Z; h5 : Z; h6 : Z; h7 : Z }.

Definition initial : state :=
  mkState 1779033703 3144134277 1013904242 2773480762
          1359893119 2600822924 528734635 1541459225.

(** Big-endian bytes of a non-negative integer, [n] bytes wide. *)
Fixpoint be_bytes (n : nat) (x : Z) : list Z :=
  match n with
  | O => []
  | S k => Z.land (Z.shiftr x (8 * Z.of_nat k)) 255 :: be_bytes k x
  end.

Definition be_word (b : list Z) : Z :=
  fold_left (fun acc x => acc * 256 + x) b 0.

(** FIPS 180-4 padding: a 1 bit, zeros, the 64-bit bit length. *)
Definition pad (msg : list Z) : list Z :=
  let len := Z.of_nat (length msg) in
  msg ++ [128] ++ repeat 0 (Z.to_nat ((55 - len) mod 64))
      ++ be_bytes 8 (8 * len).

Fixpoint chunks (fuel : nat) (k : nat) (l : list Z) : list (list Z) :=
  match fuel with
  | O => []
  | S f =>
      match l with
      | [] => []
      | _ => firstn k l :: chunks f k (skipn k l)
      end
  end.

(** Message schedule: the 16 block words, then 48 derived words.  The
    list is kept newest first. *)
Fixpoint extend (n : nat) (w : list Z) : list Z :=
  match n with
  | O => w
  | S k =>
      let t2 := nth 1 w 0 in
      let t7 := nth 6 w 0 in
      let t15 := nth 14 w 0 in
      let t16 := nth 15 w 0 in
      extend k (add32 (add32 (small_sigma1 t2) t7)
                      (add32 (small_sigma0 t15) t16) :: w)
  end.

Definition schedule (block : list Z) : list Z :=
  rev (extend 48 (rev (map be_word (chunks 16 4 block)))).

Definition round (v : state) (kw : Z * Z) : state :=
  let '(k, w) := kw in
  let t1 := add32 (add32 (add32 (h7 v) (big_sigma1 (h4 v)))
                         (add32 (choose (h4 v) (h5 v) (h6 v)) k)) w in
  let t2 := add32 (big_sigma0 (h0 v)) (majority (h0 v) (h1 v) (h2 v)) in
  mkState (add32 t1 t2) (h0 v) (h1 v) (h2 v)
          (add32 (h3 v) t1) (h4 v) (h5 v) (h6 v).

Definition compress (v : state) (block : list Z) : state :=
  let r := fold_left round (combine round_constants (schedule block)) v in
  mkState (add32 (h0 v) (h0 r)) (add32 (h1 v) (h1 r))
          (add32 (h2 v) (h2 r)) (add32 (h3 v) (h3 r))
          (add32 (h4 v) (h4 r)) (add32 (h5 v) (h5 r))
          (add32 (h6 v) (h6 r)) (add32 (h7 v) (h7 r)).

Definition digest_bytes (v : state) : list Z :=
  be_bytes 4 (h0 v) ++ be_bytes 4 (h1 v) ++ be_bytes 4 (h2 v)
  ++ be_bytes 4 (h3 v) ++ be_bytes 4 (h4 v) ++ be_bytes 4 (h5 v)
  ++ be_bytes 4 (h6 v) ++ be_bytes 4 (h7 v).

(** [sha256.Sum256]: a [32]byte array. *)
Definition Sum256 (msg : list Z) : list Z :=
  let p := pad msg in
  digest_bytes (fold_left compress (chunks (length p) 64 p) initial).

End Sha256.

(** [[]byte(value)] *)
Definition bytes_of_string (s : string) : list Z :=
  map (fun c => Z.of_nat (nat_of_ascii c)) (list_ascii_of_string s).

Definition hex_digit (n : Z) : ascii :=
  ascii_of_nat (Z.to_nat (if n <? 10 then 48 + n else 87 + n)).

(** [hex.EncodeToString]: two lower-case hex digits per byte. *)
Fixpoint EncodeToString (b : list Z) : string :=
  match b with
  | [] => EmptyString
  | x :: r => String (hex_digit (Z.shiftr x 4))
                (String (hex_digit (Z.land x 15)) (EncodeToString r))
  end.

(* ------------------------------------------------------------------ *)
(** ** database_plugin.go: credential identity *)

(** [coreusage.Detail] / [TokenStats] *)
Record TokenStats := mkTokenStats {
  InputTokens : Z;
  OutputTokens : Z;
  ReasoningTokens : Z;
  CachedTokens : Z;
  TotalTokens : Z }.

(** [coreusage.Record]; [RequestedAt] is [None] for the zero [time.Time],
    otherwise Unix seconds. *)
Record Record := mkRecord {
  Provider : string;
  Model : string;
  APIKey : string;
  AuthID : string;
  AuthIndex : Z;
  Source : string;
  RequestedAt : option Z;
  Failed : bool;
  Detail : TokenStats }.

Definition fingerprint (value : string) : string :=
  if String.eqb value "" then ""
  else EncodeToString (Sha256.Sum256 (bytes_of_string value)).

Definition credentialLabel (record : Record) : string :=
  if negb (String.eqb (AuthID record) "") then AuthID record
  else if negb (String.eqb (Source record) "") then Source record
  else if negb (String.eqb (Provider record) "") then Provider record
  else if negb (String.eqb (APIKey record) "") then "api-key"
  else "unknown".

Definition credentialFingerprint (record : Record) : string :=
  if negb (String.eqb (AuthID record) "") then fingerprint (AuthID record)
  else if negb (String.eqb (Source record) "") then fingerprint (Source record)
  else if negb (String.eqb (APIKey record) "") then fingerprint (APIKey record)
  else if negb (String.eqb (Provider record) "") then fingerprint (Provider record)
  else fingerprint "unknown".

Example fingerprint_unknown :
  fingerprint "unknown" =
  "b23a6a8439c0dde5515893e7c90c1e3233b8616e634470f20dc4928bcf3609bc".
Proof. vm_compute. reflexivity. Qed.

(* ------------------------------------------------------------------ *)
(** ** database_plugin.go: rows and the insert transaction *)

Record dbRecord := mkDbRecord {
  Timestamp : Z;
  db_Provider : string;
  db_Model : string;
  CredentialLabel : string;
  CredentialFingerprint : string;
  APIKeyHash : string;
  db_AuthID : string;
  db_AuthIndex : Z;
  db_Source : string;
  StatusCode : Z;
  db_Failed : bool;
  RateLimited : bool;
  Tokens : TokenStats }.

(** The request context: [Some st] when it carries a gin context whose
    writer reports status [st]. *)
Definition Context := option Z.

Definition resolveStatusCode (ctx : Context) : Z :=
  match ctx with
  | None => 0
  | Some st => st
  end.

Definition StatusTooManyRequests : Z := 429.

Definition boolToInt (v : bool) : Z := if v then 1 else 0.

(** [rec.Timestamp.Format("2006-01-02")] of a UTC timestamp: the day
    number since the epoch (an order-preserving encoding of the string). *)
Definition day_of (ts : Z) : Z := ts / 86400.

(** One row of [usage_daily]. *)
Record DailyRow := mkDailyRow {
  row_label : string;
  total_requests : Z;
  failed_requests : Z;
  rate_limited : Z;
  prompt_tokens : Z;
  completion_tokens : Z;
  total_tokens : Z }.

(** Primary key of [usage_daily]: (day, provider, credential_fingerprint,
    model). *)
Definition DailyKey : Type := Z * string * string * string.

(** The committed content of the database: the append-only
    [usage_requests] table and the [usage_daily] table. *)
Record usageDB := mkUsageDB {
  usage_requests : list dbRecord;
  usage_daily : gmap DailyKey DailyRow }.

Definition empty_db : usageDB := mkUsageDB [] ∅.

Definition daily_key (rec : dbRecord) : DailyKey :=
  (day_of (Timestamp rec), db_Provider rec, CredentialFingerprint rec,
   db_Model rec).

(** [INSERT INTO usage_daily ... ON CONFLICT ... DO UPDATE SET ...] with
    the [excluded] row [ex]. *)
Definition upsert_daily (m : gmap DailyKey DailyRow) (k : DailyKey)
    (ex : DailyRow) : gmap DailyKey DailyRow :=
  match m !! k with
  | None => <[k := ex]> m
  | Some old =>
      <[k := mkDailyRow
               (if negb (String.eqb (row_label ex) "") then row_label ex
                else row_label old)
               (total_requests old + total_requests ex)
               (failed_requests old + failed_requests ex)
               (rate_limited old + rate_limited ex)
               (prompt_tokens old + prompt_tokens ex)
               (completion_tokens old + completion_tokens ex)
               (total_tokens old + total_tokens ex)]> m
  end.

Definition excluded_row (rec : dbRecord) : DailyRow :=
  mkDailyRow (CredentialLabel rec) 1 (boolToInt (db_Failed rec))
    (boolToInt (RateLimited rec)) (InputTokens (Tokens rec))
    (OutputTokens (Tokens rec)) (TotalTokens (Tokens rec)).

(** The driver calls of [usageStore.insert] that can return an error. *)
Inductive Stage := BeginTx | ExecFact | ExecDaily | CommitTx.

(** Which driver calls fail on a given [insert]. *)
Definition Faults := Stage -> bool.

Inductive result (A : Type) :=
| Ok : A -> result A
| Err : string -> result A.
Arguments Ok {A} _.
Arguments Err {A} _.

(** A transaction works on a private copy of the database; [Rollback]
    drops the copy, [Commit] publishes it. *)
Definition tx_begin (f : Faults) (db : usageDB) : result usageDB :=
  if f BeginTx then Err "begin" else Ok db.

Definition tx_exec_fact (f : Faults) (tx : usageDB) (rec : dbRecord)
    : result usageDB :=
  if f ExecFact then Err "insert usage_requests"
  else Ok (mkUsageDB (usage_requests tx ++ [rec]) (usage_daily tx)).

Definition tx_exec_daily (f : Faults) (tx : usageDB) (rec : dbRecord)
    : result usageDB :=
  if f ExecDaily then Err "upsert usage_daily"
  else Ok (mkUsageDB (usage_requests tx)
             (upsert_daily (usage_daily tx) (daily_key rec) (excluded_row rec))).

Definition tx_commit (f : Faults) (tx : usageDB) : result usageDB :=
  if f CommitTx then Err "commit" else Ok tx.

(** [usageStore.insert]: the returned error and the committed database. *)
Definition insert (f : Faults) (db : usageDB) (rec : dbRecord)
    : result unit * usageDB :=
  match tx_begin f db with
  | Err e => (Err e, db)
  | Ok tx =>
      match tx_exec_fact f tx rec with
      | Err e => (Err e, db)
      | Ok tx1 =>
          match tx_exec_daily f tx1 rec with
          | Err e => (Err e, db)
          | Ok tx2 =>
              match tx_commit f tx2 with
              | Err e => (Err e, db)
              | Ok db' => (Ok tt, db')
              end
          end
      end
  end.

Definition no_faults : Faults := fun _ => false.

Definition insert_succeeds (f : Faults) : bool :=
  negb (f BeginTx || f ExecFact || f ExecDaily || f CommitTx).

(** Go's [int64] (and [time.Duration]) arithmetic: two's complement
    wrap-around. *)
Definition wrap64 (x : Z) : Z := (x + 2 ^ 63) mod 2 ^ 64 - 2 ^ 63.

(** [time.Hour] in nanoseconds. *)
Definition Hour : Z := 3600000000000.

(** The two DELETE statements of a retention pass; a fault oracle says
    which of them the driver fails (the error is logged and the pass goes
    on). *)
Inductive RetentionStage := DeleteRequests | DeleteDaily.

Definition RetentionFaults := RetentionStage -> bool.

Definition no_retention_faults : RetentionFaults := fun _ => false.

(** [usageStore.applyRetention] at time [now] (Unix seconds).  The cutoff
    is [now] plus the [time.Duration] [-Duration(rd) * 24 * time.Hour],
    computed in [int64] nanoseconds; a row is older than the cutoff when
    its timestamp, in nanoseconds, is below it. *)
Definition applyRetention (rf : RetentionFaults) (retentionDays : Z) (now : Z)
    (db : usageDB) : usageDB :=
  if retentionDays <=? 0 then db
  else
    let cutoff := now * 1000000000 +
                  wrap64 (wrap64 (wrap64 (- retentionDays) * 24) * Hour) in
    let db1 := if rf DeleteRequests then db
               else mkUsageDB
                      (filter (fun r => negb (Timestamp r * 1000000000 <? cutoff))
                              (usage_requests db))
                      (usage_daily db) in
    let cutoffDay := day_of (cutoff / 1000000000) in
    if rf DeleteDaily then db1
    else mkUsageDB (usage_requests db1)
           (filter (fun (kv : DailyKey * DailyRow) => negb (kv.1.1.1.1 <? cutoffDay))
                   (usage_daily db1)).

(* ------------------------------------------------------------------ *)
(** ** databasePlugin.HandleUsage: the row built for a record *)

Section HandleUsage.

(** [normaliseDetail] lives in another file of the package; every
    statement below holds for any such function. *)
Variable normaliseDetail : TokenStats -> TokenStats.

(** The [dbRecord] built by [HandleUsage] for [record], with request
    context [ctx], when [time.Now()] is [now]. *)
Definition toDbRecord (ctx : Context) (now : Z) (record : Record)
    : dbRecord :=
  let detail := normaliseDetail (Detail record) in
  let timestamp := match RequestedAt record with
                   | None => now
                   | Some t => t
                   end in
  let status := resolveStatusCode ctx in
  let rateLimited := Z.eqb status StatusTooManyRequests in
  let apiKeyHash := fingerprint (APIKey record) in
  mkDbRecord timestamp (Provider record) (Model record)
    (credentialLabel record) (credentialFingerprint record) apiKeyHash
    (AuthID record) (AuthIndex record) (Source record) status
    (Failed record) rateLimited detail.

(** One call of [HandleUsage] whose row reaches the insert worker:
    its context, the clock, the record and the driver faults of its
    [insert]. *)
Definition UsageEvent : Type := Context * Z * Record * Faults.

Definition event_row (e : UsageEvent) : dbRecord :=
  let '(ctx, now, record, _) := e in toDbRecord ctx now record.

Definition event_faults (e : UsageEvent) : Faults :=
  let '(_, _, _, f) := e in f.

(** The insert worker ([run]) inserting the rows in queue order. *)
Definition run_inserts (db : usageDB) (es : list UsageEvent) : usageDB :=
  fold_left (fun d e => snd (insert (event_faults e) d (event_row e))) es db.

End HandleUsage.

(* ------------------------------------------------------------------ *)
(** ** usageStore.enqueue and usageStore.close *)

(** The channels of one [usageStore]: the buffered [queue] (capacity
    2048) and the [stop] channel. *)
Record StoreChans := mkStoreChans {
  queue : list dbRecord;
  queue_cap : nat;
  queue_closed : bool;
  stop_closed : bool }.

Definition new_store_chans : StoreChans := mkStoreChans [] 2048 false false.

Inductive Outcome :=
| Returned (err : option string)
| Panicked.

(** [select { case s.queue <- rec: return nil; case <-s.stop: return err }]:
    Go picks any case that can proceed; with none it blocks (no step).
    A send on a closed channel proceeds by panicking. *)
Inductive enqueue : StoreChans -> dbRecord -> Outcome -> StoreChans -> Prop :=
| enqueue_send s rec :
    queue_closed s = false ->
    (length (queue s) < queue_cap s)%nat ->
    enqueue s rec (Returned None)
      (mkStoreChans (queue s ++ [rec]) (queue_cap s) (queue_closed s)
                    (stop_closed s))
| enqueue_send_closed s rec :
    queue_closed s = true ->
    enqueue s rec Panicked s
| enqueue_stopped s rec :
    stop_closed s = true ->
    enqueue s rec (Returned (Some "usage: database store stopped")) s.

(** [usageStore.close]: [close(s.stop)], then [wg.Wait()]: the [run]
    worker has seen [stop] and [drainRemaining] emptied the queue. *)
Definition close_store (s : StoreChans) : StoreChans :=
  mkStoreChans [] (queue_cap s) (queue_closed s) true.

(* ------------------------------------------------------------------ *)
(** ** path/filepath.Clean (Unix) *)

Definition is_sep (c : ascii) : bool := Ascii.eqb c "/"%char.

(** The inner [for out.w > dotdot && out.index(out.w) != '/'] loop. *)
Fixpoint clean_back (out : list ascii) (dotdot w : nat) : nat :=
  match w with
  | O => O
  | S w' =>
      if (dotdot <? w)%nat && negb (is_sep (nth w out "/"%char))
      then clean_back out dotdot w' else w
  end.

Fixpoint take_elem (p : list ascii) : list ascii * list ascii :=
  match p with
  | c :: r => if is_sep c then ([], p)
              else let '(e, rest) := take_elem r in (c :: e, rest)
  | [] => ([], [])
  end.

(** The main loop over the unread suffix [p] of the path; [out] is the
    written part of the lazy buffer ([out.w = length out]). *)
Fixpoint clean_loop (fuel : nat) (rooted : bool) (p out : list ascii)
    (dotdot : nat) : list ascii :=
  match fuel with
  | O => out
  | S f =>
      match p with
      | [] => out
      | c :: r =>
          if is_sep c then clean_loop f rooted r out dotdot
          else if Ascii.eqb c "."%char &&
                  match r with [] => true | c1 :: _ => is_sep c1 end
          then clean_loop f rooted r out dotdot
          else match r with
               | c1 :: r1 =>
                   if Ascii.eqb c "."%char && Ascii.eqb c1 "."%char &&
                      match r1 with [] => true | c2 :: _ => is_sep c2 end
                   then
                     let w := length out in
                     if (dotdot <? w)%nat then
                       clean_loop f rooted r1
                         (firstn (clean_back out dotdot (w - 1)) out) dotdot
                     else if negb rooted then
                       let out' := (if (0 <? w)%nat then out ++ ["/"%char]
                                    else out) ++ ["."%char; "."%char] in
                       clean_loop f rooted r1 out' (length out')
                     else clean_loop f rooted r1 out dotdot
                   else
                     let out' := if (rooted && negb (length out =? 1)%nat) ||
                                    (negb rooted && negb (length out =? 0)%nat)
                                 then out ++ ["/"%char] else out in
                     let '(e, rest) := take_elem p in
                     clean_loop f rooted rest (out' ++ e) dotdot
               | [] =>
                   let out' := if (rooted && negb (length out =? 1)%nat) ||
                                  (negb rooted && negb (length out =? 0)%nat)
                               then out ++ ["/"%char] else out in
                   let '(e, rest) := take_elem p in
                   clean_loop f rooted rest (out' ++ e) dotdot
               end
      end
  end.

Definition Clean (path : string) : string :=
  let p := list_ascii_of_string path in
  match p with
  | [] => "."
  | c :: _ =>
      let rooted := is_sep c in
      let out := if rooted then ["/"%char] else [] in
      let dotdot := if rooted then 1%nat else 0%nat in
      match clean_loop (length p) rooted (if rooted then tl p else p) out dotdot with
      | [] => "."
      | o => string_of_list_ascii o
      end
  end.

Example Clean_ex1 : Clean "a//b/../c/." = "a/c".
Proof. reflexivity. Qed.
Example Clean_ex2 : Clean "/../x/./y/" = "/x/y".
Proof. reflexivity. Qed.
Example Clean_ex3 : Clean "../../a/.." = "../..".
Proof. reflexivity. Qed.
Example Clean_ex4 : Clean "" = ".".
Proof. reflexivity. Qed.
Example Clean_ex5 : Clean "a/.." = ".".
Proof. reflexivity. Qed.

Example Clean_ex6 : Clean "//a/../../b" = "/b".
Proof. reflexivity. Qed.

(* ------------------------------------------------------------------ *)
(** ** ConfigureDatabase *)

Record DatabaseOptions := mkDatabaseOptions {
  Enabled : bool;
  Path : string;
  RetentionDays : Z }.

Definition normalizeDatabaseOptions (opts : DatabaseOptions)
    : DatabaseOptions :=
  let opts := if RetentionDays opts <=? 0
              then mkDatabaseOptions (Enabled opts) (Path opts) 14
              else opts in
  if negb (String.eqb (Path opts) "")
  then mkDatabaseOptions (Enabled opts) (Clean (Path opts)) (RetentionDays opts)
  else opts.

(** [configsEqual(prev, &normalized)]; a nil [prev] is [None]. *)
Definition configsEqual (a : option DatabaseOptions) (b : DatabaseOptions)
    : bool :=
  match a with
  | None => false
  | Some a =>
      Bool.eqb (Enabled a) (Enabled b) && String.eqb (Path a) (Path b) &&
      Z.eqb (RetentionDays a) (RetentionDays b)
  end.

(** A live [*usageStore]: its identity (pointer), its [retentionDays] and
    the database file it owns. *)
Record usageStore := mkUsageStore {
  store_id : nat;
  retentionDays : Z;
  store_path : string }.

(** The package globals [currentUsageStore] and [currentDBConfig], with
    the allocator of fresh stores and the stores closed so far. *)
Record Globals := mkGlobals {
  currentUsageStore : option usageStore;
  currentDBConfig : option DatabaseOptions;
  next_store : nat;
  closed_stores : list nat }.

Definition initial_globals : Globals := mkGlobals None None 0 [].

(** [newUsageStore]; [io_ok] says whether [MkdirAll], [sql.Open] and
    [applyUsageSchema] succeed. *)
Definition newUsageStore (io_ok : bool) (opts : DatabaseOptions) (g : Globals)
    : result usageStore :=
  if String.eqb (Path opts) "" then Err "usage: database path is empty"
  else if negb io_ok then Err "usage: open sqlite"
  else Ok (mkUsageStore (next_store g) (RetentionDays opts) (Path opts)).

Definition close_old (old : option usageStore) (closed : list nat) : list nat :=
  match old with
  | None => closed
  | Some st => store_id st :: closed
  end.

Definition ConfigureDatabase (io_ok : bool) (opts : DatabaseOptions)
    (g : Globals) : result unit * Globals :=
  let normalized := normalizeDatabaseOptions opts in
  let prev := currentDBConfig g in
  if configsEqual prev normalized then (Ok tt, g)
  else if negb (Enabled normalized) || String.eqb (Path normalized) "" then
    (Ok tt, mkGlobals None (Some normalized) (next_store g)
                      (close_old (currentUsageStore g) (closed_stores g)))
  else
    match newUsageStore io_ok normalized g with
    | Err e => (Err e, g)
    | Ok store =>
        (Ok tt, mkGlobals (Some store) (Some normalized) (S (next_store g))
                          (close_old (currentUsageStore g) (closed_stores g)))
    end.

(** The automatic retention pass of the active store, if any. *)
Definition active_retention (g : Globals) (rf : RetentionFaults) (now : Z)
    (db : usageDB) : usageDB :=
  match currentUsageStore g with
  | None => db
  | Some st => applyRetention rf (retentionDays st) now db
  end.

(* ------------------------------------------------------------------ *)
(** ** strings.TrimSpace *)

(** UTF-8 encodings of the runes for which [unicode.IsSpace] holds:
    '\t' '\n' '\v' '\f' '\r' ' ', U+0085, U+00A0, U+1680, U+2000..U+200A,
    U+2028, U+2029, U+202F, U+205F, U+3000. *)
Definition space_encodings : list (list nat) :=
  [[9]; [10]; [11]; [12]; [13]; [32]; [194; 133]; [194; 160];
   [225; 154; 128]]%nat ++
  map (fun k => [226; 128; 128 + k]%nat) (seq 0 11) ++
  [[226; 128; 168]; [226; 128; 169]; [226; 128; 175]; [226; 129; 159];
   [227; 128; 128]]%nat.

Fixpoint is_prefix (p l : list nat) : bool :=
  match p, l with
  | [], _ => true
  | x :: p', y :: l' => Nat.eqb x y && is_prefix p' l'
  | _ :: _, [] => false
  end.

(** Width of the space rune that [l] starts with ([utf8.DecodeRune]
    followed by [unicode.IsSpace]), 0 if none. *)
Definition space_prefix (l : list nat) : nat :=
  match find (fun e => is_prefix e l) space_encodings with
  | Some e => length e
  | None => 0
  end.

(** Width of the space rune that the reversed list [rl] ends with
    ([utf8.DecodeLastRune]), 0 if none. *)
Definition space_suffix (rl : list nat) : nat :=
  match find (fun e => is_prefix (rev e) rl) space_encodings with
  | Some e => length e
  | None => 0
  end.

Fixpoint trim_left (fuel : nat) (l : list nat) : list nat :=
  match fuel with
  | O => l
  | S f =>
      match space_prefix l with
      | O => l
      | n => trim_left f (skipn n l)
      end
  end.

Fixpoint trim_right_rev (fuel : nat) (rl : list nat) : list nat :=
  match fuel with
  | O => rl
  | S f =>
      match space_suffix rl with
      | O => rl
      | n => trim_right_rev f (skipn n rl)
      end
  end.

Definition bytes_of (s : string) : list nat :=
  map nat_of_ascii (list_ascii_of_string s).

Definition string_of_bytes (l : list nat) : string :=
  string_of_list_ascii (map ascii_of_nat l).

(** [strings.TrimSpace s]: its ASCII fast path computes the same result as
    [TrimFunc(s, unicode.IsSpace)], i.e. [TrimRightFunc(TrimLeftFunc(s))]. *)
Definition TrimSpace (s : string) : string :=
  let l := bytes_of s in
  let l1 := trim_left (length l) l in
  string_of_bytes (rev (trim_right_rev (length l1) (rev l1))).

Example TrimSpace_ex1 :
  TrimSpace "  https://collector.example/v1/logs  " =
  "https://collector.example/v1/logs".
Proof. vm_compute. reflexivity. Qed.

Example TrimSpace_ex2 :
  TrimSpace (String (ascii_of_nat 194) (String (ascii_of_nat 160)
               (String "x"%char (String "009"%char EmptyString)))) = "x".
Proof. vm_compute. reflexivity. Qed.

(* ------------------------------------------------------------------ *)
(** ** otlp_plugin.go *)

(** The gin context seen by [convertRecordToEvent]: the values stored
    under "auth_value", "conversation_id" and "turn_id" when they are
    strings, and the writer's status when the writer is not nil. *)
Record GinContext := mkGinContext {
  auth_value : option string;
  conversation_id : option string;
  turn_id : option string;
  writer_status : option Z }.

Definition OTLPContext := option GinContext.

Record OTLPEvent := mkOTLPEvent {
  ev_Component : string;
  ev_Event : string;
  ev_Timestamp : option Z;
  ev_Provider : string;
  ev_Model : string;
  ev_AccountEmail : string;
  ev_ConversationID : string;
  ev_TurnID : string;
  ev_Tokens : list (string * Z);
  ev_StatusCode : Z;
  ev_Attributes : Record }.

Definition convertRecordToEvent (ctx : OTLPContext) (record : Record)
    : OTLPEvent :=
  let d := Detail record in
  let base := mkOTLPEvent "cli-proxy-api" "usage.record" (RequestedAt record)
                (Provider record) (Model record) "" "" ""
                [("input", InputTokens d); ("output", OutputTokens d);
                 ("reasoning", ReasoningTokens d); ("cached", CachedTokens d);
                 ("total", TotalTokens d)] 200 record in
  match ctx with
  | None => base
  | Some g =>
      let email := match auth_value g with
                   | Some a => if String.eqb a "" then "" else a
                   | None => "" end in
      let conv := match conversation_id g with Some c => c | None => "" end in
      let turn := match turn_id g with Some t => t | None => "" end in
      let status := match writer_status g with Some st => st | None => 200 end in
      mkOTLPEvent (ev_Component base) (ev_Event base) (ev_Timestamp base)
        (ev_Provider base) (ev_Model base) email conv turn (ev_Tokens base)
        status (ev_Attributes base)
  end.

(** One HTTP POST of an event to an endpoint, handed to [p.client.Do]. *)
Record Post := mkPost { post_endpoint : string; post_event : OTLPEvent }.

Record OTLPPlugin := mkOTLPPlugin {
  endpoint : string;
  enabled : bool;
  batch : list (OTLPContext * Record);
  batchSize : nat;
  stopChan_closed : bool }.

Section OTLPSend.

(** Whether [http.NewRequestWithContext(ctx, "POST", endpoint, body)]
    accepts the endpoint (it fails when [url.Parse] rejects it).  The
    [json.Marshal] before it cannot fail on an [OTLPEvent], whose fields
    are strings, integers, booleans and string-keyed maps of these. *)
Variable NewRequest_ok : string -> bool.

(** [NewOTLPPlugin] with [os.Getenv("DY_NOTI_OTEL_ENDPOINT")] = [env]. *)
Definition NewOTLPPlugin (env : string) : OTLPPlugin :=
  mkOTLPPlugin (if String.eqb env "" then "http://127.0.0.1:4318/v1/logs"
                else env) true [] 10 false.

(** [sendEvent]: one POST to the current endpoint, none when the request
    cannot be built.  A failure of [client.Do] or a non-2xx answer comes
    after the POST and is only logged. *)
Definition sendEvent (p : OTLPPlugin) (ev : OTLPEvent) : list Post :=
  if NewRequest_ok (endpoint p) then [mkPost (endpoint p) ev] else [].

Definition HandleUsage (p : OTLPPlugin) (ctx : OTLPContext) (record : Record)
    : list Post :=
  if negb (enabled p) then []
  else sendEvent p (convertRecordToEvent ctx record).

Definition SetEnabled (p : OTLPPlugin) (b : bool) : OTLPPlugin :=
  mkOTLPPlugin (endpoint p) b (batch p) (batchSize p) (stopChan_closed p).

Definition IsEnabled (p : OTLPPlugin) : bool := enabled p.

Definition SetEndpoint (p : OTLPPlugin) (s : string) : OTLPPlugin :=
  mkOTLPPlugin (TrimSpace s) (enabled p) (batch p) (batchSize p)
    (stopChan_closed p).

Definition GetEndpoint (p : OTLPPlugin) : string := endpoint p.

(** [flushBatch]: records are converted with [context.Background()]. *)
Definition flushBatch (p : OTLPPlugin) : OTLPPlugin * list Post :=
  match batch p with
  | [] => (p, [])
  | b => (mkOTLPPlugin (endpoint p) (enabled p) [] (batchSize p)
                       (stopChan_closed p),
          flat_map (fun cr => sendEvent p (convertRecordToEvent None cr.2)) b)
  end.

Inductive OTLPOp :=
| OpHandleUsage (ctx : OTLPContext) (record : Record)
| OpSetEnabled (b : bool)
| OpSetEndpoint (s : string)
| OpTick
| OpClose.

(** One public operation, or one tick of [periodicFlush], with the posts
    it makes.  [close(p.stopChan)] on a closed channel panics: no step. *)
Inductive otlp_step : OTLPPlugin -> OTLPOp -> list Post -> OTLPPlugin -> Prop :=
| step_handle p ctx r :
    otlp_step p (OpHandleUsage ctx r) (HandleUsage p ctx r) p
| step_set_enabled p b :
    otlp_step p (OpSetEnabled b) [] (SetEnabled p b)
| step_set_endpoint p s :
    otlp_step p (OpSetEndpoint s) [] (SetEndpoint p s)
| step_tick p :
    stopChan_closed p = false ->
    otlp_step p OpTick (snd (flushBatch p)) (fst (flushBatch p))
| step_close p :
    stopChan_closed p = false ->
    let p' := mkOTLPPlugin (endpoint p) (enabled p) (batch p) (batchSize p)
                true in
    otlp_step p OpClose (snd (flushBatch p')) (fst (flushBatch p')).

Inductive otlp_run : OTLPPlugin -> list OTLPOp -> list Post -> OTLPPlugin -> Prop :=
| run_nil p : otlp_run p [] [] p
| run_cons p op ops posts1 posts2 p1 p2 :
    otlp_step p op posts1 p1 ->
    otlp_run p1 ops posts2 p2 ->
    otlp_run p (op :: ops) (posts1 ++ posts2) p2.

Definition otlp_reachable (p : OTLPPlugin) : Prop :=
  exists env ops posts, otlp_run (NewOTLPPlugin env) ops posts p.

End OTLPSend.

(* ------------------------------------------------------------------ *)
(** ** The package-level OTLP plugin ([globalOTLPPlugin]) *)

(** [globalOTLPPlugin]: [None] is the nil pointer. *)
Definition GlobalPlugin : Type := option OTLPPlugin.

(** The exported functions of package [usage] that wrap it. *)
Module Usage.

(** [RegisterOTLPPlugin]: a fresh plugin becomes the global one (its
    registration with the usage manager is outside this package). *)
Definition RegisterOTLPPlugin (env : string) : GlobalPlugin :=
  Some (NewOTLPPlugin env).

Definition OTLPEnabled (g : GlobalPlugin) : bool :=
  match g with
  | Some p => IsEnabled p
  | None => true
  end.

Definition SetOTLPEnabled (g : GlobalPlugin) (b : bool) : GlobalPlugin :=
  match g with
  | Some p => Some (SetEnabled p b)
  | None => None
  end.

Definition OTLPEndpoint (g : GlobalPlugin) : string :=
  match g with
  | Some p => GetEndpoint p
  | None => "http://127.0.0.1:4318/v1/logs"
  end.

Definition SetOTLPEndpoint (g : GlobalPlugin) (s : string) : GlobalPlugin :=
  match g with
  | Some p => Some (SetEndpoint p s)
  | None => None
  end.

End Usage.

(* ------------------------------------------------------------------ *)
(** ** api/handlers/management/otlp.go *)

(** The JSON values the handlers write with [c.JSON]. *)
Inductive JValue :=
| JBool (b : bool)
| JString (s : string).

(** An HTTP response: status code and the [gin.H] body, in key order. *)
Definition Response : Type := Z * list (string * JValue).

(** [c.ShouldBindJSON(&req)]: the bound request, or the binding error's
    message. *)
Definition Bound (A : Type) : Type := sum string A.

Module Management.

Definition GetOTLPEnabled (g : GlobalPlugin) : Response :=
  (200, [("enabled", JBool (Usage.OTLPEnabled g))]).

Definition SetOTLPEnabled (req : Bound bool) (g : GlobalPlugin)
    : Response * GlobalPlugin :=
  match req with
  | inl err => ((400, [("error", JString err)]), g)
  | inr enabled =>
      ((200, [("enabled", JBool enabled);
              ("message", JString "OTLP telemetry status updated")]),
       Usage.SetOTLPEnabled g enabled)
  end.

Definition GetOTLPEndpoint (g : GlobalPlugin) : Response :=
  (200, [("endpoint", JString (Usage.OTLPEndpoint g))]).

Definition SetOTLPEndpoint (req : Bound string) (g : GlobalPlugin)
    : Response * GlobalPlugin :=
  match req with
  | inl err => ((400, [("error", JString err)]), g)
  | inr endpoint =>
      ((200, [("endpoint", JString endpoint);
              ("message", JString "OTLP endpoint updated")]),
       Usage.SetOTLPEndpoint g endpoint)
  end.

End Management.

(* ================================================================== *)
(** * Properties *)

(** First non-empty string of a list, [dflt] if there is none. *)
Fixpoint first_nonempty (l : list string) (dflt : string) : string :=
  match l with
  | [] => dflt
  | s :: r => if String.eqb s "" then first_nonempty r dflt else s
  end.

Lemma be_bytes_length n x : length (Sha256.be_bytes n x) = n.
Proof. induction n; simpl; auto. Qed.

Lemma Sum256_length msg : length (Sha256.Sum256 msg) = 32%nat.
Proof.
  unfold Sha256.Sum256, Sha256.digest_bytes.
  rewrite !length_app, !be_bytes_length. reflexivity.
Qed.

Lemma EncodeToString_length b :
  String.length (EncodeToString b) = (2 * length b)%nat.
Proof. induction b; simpl; [reflexivity | rewrite IHb; lia]. Qed.

Lemma fingerprint_length v :
  v <> "" -> String.length (fingerprint v) = 64%nat.
Proof.
  intros Hv. unfold fingerprint.
  destruct (String.eqb_spec v ""); [contradiction |].
  rewrite EncodeToString_length, Sum256_length. reflexivity.
Qed.

Lemma first_nonempty_nonempty l d :
  d <> "" -> first_nonempty l d <> "".
Proof.
  induction l as [| s r IH]; simpl; intros Hd; auto.
  destruct (String.eqb_spec s ""); auto.
Qed.

(** ** Fingerprints are lower-case hex encodings of the digest *)

Definition is_lower_hex (c : ascii) : bool :=
  let n := nat_of_ascii c in
  ((48 <=? n) && (n <=? 57))%nat || ((97 <=? n) && (n <=? 102))%nat.

(** The value of a lower-case hex digit (the inverse of [hex_digit]). *)
Definition hex_value (c : ascii) : Z :=
  let n := Z.of_nat (nat_of_ascii c) in
  if n <? 97 then n - 48 else n - 87.

(** Two hex digits per byte, as [hex.DecodeString] reads them. *)
Fixpoint DecodeHex (s : string) : list Z :=
  match s with
  | String a (String b r) => (16 * hex_value a + hex_value b) :: DecodeHex r
  | _ => []
  end.

Lemma hex_digit_spec n :
  0 <= n < 16 -> is_lower_hex (hex_digit n) = true /\ hex_value (hex_digit n) = n.
Proof.
  intros [H0 H1]. rewrite <- (Z2Nat.id n H0).
  assert (Hm : (Z.to_nat n < 16)%nat) by lia.
  generalize dependent (Z.to_nat n). intros m Hm.
  do 16 (destruct m as [| m]; [split; reflexivity |]). lia.
Qed.

Lemma be_bytes_range k x : Forall (fun y => 0 <= y < 256) (Sha256.be_bytes k x).
Proof.
  induction k as [| k IH]; simpl; constructor; [| exact IH].
  change 255 with (Z.ones 8). rewrite Z.land_ones by lia.
  apply Z.mod_pos_bound. lia.
Qed.

Lemma Sum256_range msg : Forall (fun y => 0 <= y < 256) (Sha256.Sum256 msg).
Proof.
  unfold Sha256.Sum256, Sha256.digest_bytes.
  repeat (apply Forall_app; split); apply be_bytes_range.
Qed.

Lemma EncodeToString_hex (b : list Z) :
  Forall (fun y => 0 <= y < 256) b ->
  Forall (fun c => is_lower_hex c = true) (list_ascii_of_string (EncodeToString b)) /\
  DecodeHex (EncodeToString b) = b.
Proof.
  induction 1 as [| x b Hx Hb IH]; simpl; [split; [constructor | reflexivity] |].
  destruct IH as [IH1 IH2].
  assert (Hhi : 0 <= Z.shiftr x 4 < 16).
  { rewrite Z.shiftr_div_pow2 by lia. change (2 ^ 4) with 16.
    split; [apply Z.div_pos | apply Z.div_lt_upper_bound]; lia. }
  assert (Hlo : 0 <= Z.land x 15 < 16).
  { change 15 with (Z.ones 4). rewrite Z.land_ones by lia.
    apply Z.mod_pos_bound. lia. }
  destruct (hex_digit_spec _ Hhi) as [Ha Va]. destruct (hex_digit_spec _ Hlo) as [Hb' Vb].
  split; [constructor; [exact Ha | constructor; [exact Hb' | exact IH1]] |].
  rewrite Va, Vb, IH2. f_equal.
  rewrite Z.shiftr_div_pow2 by lia. change 15 with (Z.ones 4).
  rewrite Z.land_ones by lia. change (2 ^ 4) with 16.
  symmetry. apply Z.div_mod. lia.
Qed.

Definition hex64 (s : string) : Prop :=
  String.length s = 64%nat /\
  Forall (fun c => is_lower_hex c = true) (list_ascii_of_string s).

Lemma fingerprint_hex64 v : v <> "" -> hex64 (fingerprint v).
Proof.
  intros Hv. split; [apply fingerprint_length, Hv |].
  unfold fingerprint. destruct (String.eqb_spec v ""); [contradiction |].
  apply EncodeToString_hex, Sum256_range.
Qed.

Lemma credentialFingerprint_hex64 record : hex64 (credentialFingerprint record).
Proof.
  unfold credentialFingerprint.
  destruct (String.eqb_spec (AuthID record) "") as [_ | H]; simpl;
    [| apply fingerprint_hex64, H].
  destruct (String.eqb_spec (Source record) "") as [_ | H]; simpl;
    [| apply fingerprint_hex64, H].
  destruct (String.eqb_spec (APIKey record) "") as [_ | H]; simpl;
    [| apply fingerprint_hex64, H].
  destruct (String.eqb_spec (Provider record) "") as [_ | H]; simpl;
    [| apply fingerprint_hex64, H].
  apply fingerprint_hex64. discriminate.
Qed.

Definition empty_tokens : TokenStats := mkTokenStats 0 0 0 0 0.

(** A record without any credential identity. *)
Definition anonymous_record : Record :=
  mkRecord "" "gpt-x" "" "" 0 "" None false empty_tokens.

(** C6 (as stated, refuted): a record whose auth id, source, raw key and
    provider are all empty does not get the empty fingerprint. *)
Lemma credentialFingerprint_all_empty_not_sentinel :
  AuthID anonymous_record = "" /\ Source anonymous_record = "" /\
  APIKey anonymous_record = "" /\ Provider anonymous_record = "" /\
  credentialFingerprint anonymous_record =
  "b23a6a8439c0dde5515893e7c90c1e3233b8616e634470f20dc4928bcf3609bc" /\
  credentialFingerprint anonymous_record <> "".
Proof. vm_compute. repeat split; discriminate. Qed.

(** C6 (amended): the credential fingerprint is [fingerprint] of the first
    non-empty value among auth id, source, raw key and provider, and of
    "unknown" when all four are empty; it is always a 64-character string
    of lower-case hex digits, and [fingerprint ""] is the empty string. *)
Theorem credentialFingerprint_spec (record : Record) :
  credentialFingerprint record =
    fingerprint (first_nonempty [AuthID record; Source record; APIKey record;
                                 Provider record] "unknown") /\
  String.length (credentialFingerprint record) = 64%nat /\
  Forall (fun c => is_lower_hex c = true)
         (list_ascii_of_string (credentialFingerprint record)) /\
  fingerprint "" = "".
Proof.
  assert (Heq : credentialFingerprint record =
    fingerprint (first_nonempty [AuthID record; Source record; APIKey record;
                                 Provider record] "unknown")).
  { unfold credentialFingerprint; simpl.
    destruct (String.eqb (AuthID record) ""); simpl; [| reflexivity].
    destruct (String.eqb (Source record) ""); simpl; [| reflexivity].
    destruct (String.eqb (APIKey record) ""); simpl; [| reflexivity].
    destruct (String.eqb (Provider record) ""); reflexivity. }
  split; [exact Heq |].
  destruct (credentialFingerprint_hex64 record) as [Hlen Hhex].
  split; [exact Hlen | split; [exact Hhex | reflexivity]].
Qed.

(** ** The insert transaction *)

Lemma insert_cases f db rec :
  insert f db rec =
  if insert_succeeds f
  then (Ok tt, mkUsageDB (usage_requests db ++ [rec])
                 (upsert_daily (usage_daily db) (daily_key rec) (excluded_row rec)))
  else (match insert f db rec with (r, _) => r end, db).
Proof.
  unfold insert, insert_succeeds, tx_begin, tx_exec_fact, tx_exec_daily, tx_commit.
  destruct (f BeginTx), (f ExecFact), (f ExecDaily), (f CommitTx); reflexivity.
Qed.

(** C2: [insert] either commits both the fact row and the aggregate upsert
    and returns no error, or returns an error and leaves the committed
    database exactly as it was. *)
Theorem insert_atomic (f : Faults) (db : usageDB) (rec : dbRecord) :
  match insert f db rec with
  | (Ok _, db') =>
      insert_succeeds f = true /\
      db' = mkUsageDB (usage_requests db ++ [rec])
              (upsert_daily (usage_daily db) (daily_key rec) (excluded_row rec))
  | (Err _, db') => insert_succeeds f = false /\ db' = db
  end.
Proof.
  unfold insert, insert_succeeds, tx_begin, tx_exec_fact, tx_exec_daily, tx_commit.
  destruct (f BeginTx), (f ExecFact), (f ExecDaily), (f CommitTx);
    simpl; auto.
Qed.

(** ** Credential labels *)

Definition labels_nonempty (db : usageDB) : Prop :=
  Forall (fun r => CredentialLabel r <> "") (usage_requests db) /\
  map_Forall (fun _ row => row_label row <> "") (usage_daily db).

Lemma credentialLabel_nonempty (record : Record) : credentialLabel record <> "".
Proof.
  unfold credentialLabel.
  destruct (String.eqb_spec (AuthID record) ""); simpl; [| assumption].
  destruct (String.eqb_spec (Source record) ""); simpl; [| assumption].
  destruct (String.eqb_spec (Provider record) ""); simpl; [| assumption].
  destruct (String.eqb (APIKey record) ""); discriminate.
Qed.

Lemma upsert_daily_lookup m k ex :
  upsert_daily m k ex !! k =
  Some (match m !! k with
        | None => ex
        | Some old =>
            mkDailyRow
              (if negb (String.eqb (row_label ex) "") then row_label ex
               else row_label old)
              (total_requests old + total_requests ex)
              (failed_requests old + failed_requests ex)
              (rate_limited old + rate_limited ex)
              (prompt_tokens old + prompt_tokens ex)
              (completion_tokens old + completion_tokens ex)
              (total_tokens old + total_tokens ex)
        end).
Proof.
  unfold upsert_daily. destruct (m !! k); apply lookup_insert_eq.
Qed.

Lemma upsert_daily_lookup_ne m k k' ex :
  k <> k' -> upsert_daily m k ex !! k' = m !! k'.
Proof.
  intros Hne. unfold upsert_daily.
  destruct (m !! k); apply lookup_insert_ne; exact Hne.
Qed.

Lemma upsert_daily_labels m k ex :
  row_label ex <> "" ->
  map_Forall (fun _ row => row_label row <> "") m ->
  map_Forall (fun _ row => row_label row <> "") (upsert_daily m k ex).
Proof.
  intros Hex Hm. unfold upsert_daily.
  destruct (m !! k) eqn:Hk; apply map_Forall_insert_2; auto; simpl.
  destruct (String.eqb_spec (row_label ex) ""); simpl; [contradiction | exact Hex].
Qed.

(** C10: every credential label derived from a record is non-empty; the
    aggregate upsert of a row built by [HandleUsage] always stores the
    incoming label (the keep-the-old-label branch is never taken); and
    inserting such rows keeps every fact row and every aggregate row with a
    non-empty label. *)
Theorem credentialLabel_rows_nonempty
    (normaliseDetail : TokenStats -> TokenStats) (db : usageDB)
    (es : list UsageEvent) (Hdb : labels_nonempty db) :
  (forall record : Record, credentialLabel record <> "") /\
  (forall (m : gmap DailyKey DailyRow) ctx now record,
     let rec := toDbRecord normaliseDetail ctx now record in
     option_map row_label
       (upsert_daily m (daily_key rec) (excluded_row rec) !! daily_key rec)
     = Some (credentialLabel record)) /\
  labels_nonempty (run_inserts normaliseDetail db es).
Proof.
  split; [exact credentialLabel_nonempty |]. split.
  - intros m ctx now record rec. rewrite upsert_daily_lookup.
    destruct (m !! daily_key rec); simpl; [| reflexivity].
    destruct (String.eqb_spec (credentialLabel record) "");
      [exfalso; exact (credentialLabel_nonempty record e) | reflexivity].
  - revert db Hdb. induction es as [| e es IH]; intros db Hdb; simpl; [exact Hdb |].
    apply IH. rewrite insert_cases.
    destruct (insert_succeeds (event_faults e)); [| exact Hdb].
    destruct Hdb as [Hreq Hday]. destruct e as [[[ctx now] record] f].
    simpl. split.
    + apply Forall_app; split; [exact Hreq |].
      constructor; [apply credentialLabel_nonempty | constructor].
    + apply upsert_daily_labels; [apply credentialLabel_nonempty | exact Hday].
Qed.

Lemma credentialLabel_rows_nonempty_witness :
  labels_nonempty empty_db /\
  labels_nonempty
    (run_inserts (fun d => d) empty_db
       [(Some 429, 0, anonymous_record, no_faults)]).
Proof.
  assert (H0 : labels_nonempty empty_db).
  { split; [constructor | apply map_Forall_empty]. }
  split; [exact H0 |].
  exact (proj2 (proj2 (credentialLabel_rows_nonempty (fun d => d) empty_db
                          [(Some 429, 0, anonymous_record, no_faults)] H0))).
Defined.

(** ** Daily aggregates *)

(** The counters of [usage_daily] at key [k] (zeros when there is no row):
    total requests, failed requests, rate-limited, total tokens. *)
Definition row_counts (m : gmap DailyKey DailyRow) (k : DailyKey)
    : Z * Z * Z * Z :=
  match m !! k with
  | None => (0, 0, 0, 0)
  | Some r => (total_requests r, failed_requests r, rate_limited r, total_tokens r)
  end.

Definition add_counts (a b : Z * Z * Z * Z) : Z * Z * Z * Z :=
  let '(a1, a2, a3, a4) := a in
  let '(b1, b2, b3, b4) := b in
  (a1 + b1, a2 + b2, a3 + b3, a4 + b4).

Definition event_record (e : UsageEvent) : Record :=
  let '(_, _, r, _) := e in r.

Definition event_context (e : UsageEvent) : Context :=
  let '(c, _, _, _) := e in c.

Lemma row_counts_upsert m k k' ex :
  row_counts (upsert_daily m k ex) k' =
  if bool_decide (k = k')
  then add_counts (row_counts m k')
         (total_requests ex, failed_requests ex, rate_limited ex, total_tokens ex)
  else row_counts m k'.
Proof.
  unfold row_counts. case_bool_decide as Hk.
  - subst k'. rewrite upsert_daily_lookup.
    destruct (m !! k); simpl; [reflexivity |].
    destruct ex; simpl. reflexivity.
  - rewrite upsert_daily_lookup_ne by exact Hk. reflexivity.
Qed.

Section Aggregates.

Variable normaliseDetail : TokenStats -> TokenStats.
Variable k : DailyKey.

(** The events whose row was committed under key [k]. *)
Definition committed_at (es : list UsageEvent) : list UsageEvent :=
  List.filter (fun e => insert_succeeds (event_faults e) &&
                        bool_decide (daily_key (event_row normaliseDetail e) = k)) es.

Definition expected_counts (es : list UsageEvent) : Z * Z * Z * Z :=
  let s := committed_at es in
  (Z.of_nat (length s),
   Z.of_nat (length (List.filter (fun e => Failed (event_record e)) s)),
   Z.of_nat (length (List.filter
                       (fun e => Z.eqb (resolveStatusCode (event_context e))
                                       StatusTooManyRequests) s)),
   fold_right Z.add 0
     (map (fun e => TotalTokens (normaliseDetail (Detail (event_record e)))) s)).

Lemma expected_counts_cons (e : UsageEvent) (es : list UsageEvent) :
  expected_counts (e :: es) =
  if insert_succeeds (event_faults e) &&
     bool_decide (daily_key (event_row normaliseDetail e) = k)
  then add_counts
         (1, boolToInt (Failed (event_record e)),
          boolToInt (Z.eqb (resolveStatusCode (event_context e))
                           StatusTooManyRequests),
          TotalTokens (normaliseDetail (Detail (event_record e))))
         (expected_counts es)
  else expected_counts es.
Proof.
  unfold expected_counts, committed_at. cbn [List.filter].
  destruct (_ && _); [| reflexivity].
  cbn [List.filter length map fold_right].
  unfold add_counts, boolToInt.
  destruct (Failed (event_record e)), (Z.eqb _ _);
    cbn [List.filter length]; rewrite ?Nat2Z.inj_succ; f_equal; try f_equal; try f_equal; lia.
Qed.

Lemma run_inserts_counts (db : usageDB) (es : list UsageEvent) :
  row_counts (usage_daily (run_inserts normaliseDetail db es)) k =
  add_counts (row_counts (usage_daily db) k) (expected_counts es).
Proof.
  revert db. induction es as [| e es IH]; intros db.
  - unfold expected_counts; simpl.
    destruct (row_counts (usage_daily db) k) as [[[a b] c] d]; simpl.
    rewrite !Z.add_0_r. reflexivity.
  - simpl. rewrite IH, insert_cases, expected_counts_cons.
    destruct (expected_counts es) as [[[a2 b2] c2] d2].
    destruct (insert_succeeds (event_faults e)); simpl; [| reflexivity].
    rewrite row_counts_upsert.
    case_bool_decide as Hk; [| reflexivity].
    destruct e as [[[ctx now] record] f]. simpl.
    destruct (row_counts (usage_daily db) k) as [[[a1 b1] c1] d1].
    unfold add_counts, excluded_row, toDbRecord; simpl.
    rewrite !Z.add_assoc. reflexivity.
Qed.

Lemma run_inserts_keeps (db : usageDB) (es : list UsageEvent) :
  is_Some (usage_daily db !! k) ->
  is_Some (usage_daily (run_inserts normaliseDetail db es) !! k).
Proof.
  revert db. induction es as [| e es IH]; intros db Hex; simpl; [exact Hex |].
  apply IH. rewrite insert_cases.
  destruct (insert_succeeds (event_faults e)); simpl; [| exact Hex].
  destruct (decide (daily_key (event_row normaliseDetail e) = k)) as [<- | Hne].
  - rewrite upsert_daily_lookup. eauto.
  - rewrite upsert_daily_lookup_ne by exact Hne. exact Hex.
Qed.

Lemma run_inserts_present (db : usageDB) (es : list UsageEvent) :
  committed_at es <> [] ->
  is_Some (usage_daily (run_inserts normaliseDetail db es) !! k).
Proof.
  revert db. induction es as [| e es IH]; intros db Hne; [contradiction |].
  simpl. unfold committed_at in Hne. cbn [List.filter] in Hne.
  rewrite insert_cases.
  destruct (insert_succeeds (event_faults e) &&
            bool_decide (daily_key (event_row normaliseDetail e) = k)) eqn:Hb.
  - apply andb_true_iff in Hb as [Hs Hk]. apply bool_decide_eq_true in Hk.
    rewrite Hs. apply run_inserts_keeps. simpl.
    rewrite <- Hk, upsert_daily_lookup. eauto.
  - destruct (insert_succeeds (event_faults e)); apply IH; exact Hne.
Qed.

End Aggregates.

(** C1: for the rows built by [HandleUsage] and committed by [insert]
    under one key (day, provider, credential fingerprint, model), starting
    from a database with no aggregate row for that key, the aggregate row
    exists and counts them: total_requests is their number, failed_requests
    the number with [Failed], rate_limited the number whose resolved status
    is 429, total_tokens the sum of their (normalised) total token counts. *)
Theorem daily_aggregate_counts
    (normaliseDetail : TokenStats -> TokenStats) (db : usageDB)
    (es : list UsageEvent) (k : DailyKey)
    (Hfresh : usage_daily db !! k = None)
    (Hsome : committed_at normaliseDetail k es <> []) :
  let s := committed_at normaliseDetail k es in
  exists row,
    usage_daily (run_inserts normaliseDetail db es) !! k = Some row /\
    total_requests row = Z.of_nat (length s) /\
    failed_requests row =
      Z.of_nat (length (List.filter (fun e => Failed (event_record e)) s)) /\
    rate_limited row =
      Z.of_nat (length (List.filter
                          (fun e => Z.eqb (resolveStatusCode (event_context e)) 429) s)) /\
    total_tokens row =
      fold_right Z.add 0
        (map (fun e => TotalTokens (normaliseDetail (Detail (event_record e)))) s).
Proof.
  intros s.
  destruct (run_inserts_present normaliseDetail k db es Hsome) as [row Hrow].
  exists row. split; [exact Hrow |].
  pose proof (run_inserts_counts normaliseDetail k db es) as Hc.
  unfold row_counts in Hc. rewrite Hrow, Hfresh in Hc.
  unfold expected_counts, add_counts in Hc. simpl in Hc.
  injection Hc as H1 H2 H3 H4. subst s.
  repeat split; assumption.
Qed.

Definition qwen_record (failed : bool) (total : Z) : Record :=
  mkRecord "qwen" "qwen3-coder" "sk-1" "auth-A" 7 "source-A"
    (Some 1700000000) failed (mkTokenStats 10 15 0 0 total).

Definition qwen_events : list UsageEvent :=
  [(Some 429, 0, qwen_record true 25, no_faults);
   (Some 200, 0, qwen_record false 5, fun st => match st with CommitTx => true | _ => false end);
   (None, 0, qwen_record false 7, no_faults)].

Definition qwen_key : DailyKey :=
  daily_key (toDbRecord (fun d => d) None 0 (qwen_record false 0)).

Lemma daily_aggregate_counts_witness :
  usage_daily empty_db !! qwen_key = None /\
  committed_at (fun d => d) qwen_key qwen_events <> [] /\
  row_counts (usage_daily (run_inserts (fun d => d) empty_db qwen_events)) qwen_key
    = (2, 1, 1, 32).
Proof.
  assert (H1 : usage_daily empty_db !! qwen_key = None) by reflexivity.
  assert (H2 : committed_at (fun d => d) qwen_key qwen_events <> [])
    by (vm_compute; discriminate).
  split; [exact H1 | split; [exact H2 |]].
  destruct (daily_aggregate_counts (fun d => d) empty_db qwen_events qwen_key H1 H2)
    as [row [Hrow [Ht [Hf [Hr Htok]]]]].
  unfold row_counts. rewrite Hrow, Ht, Hf, Hr, Htok.
  vm_compute. reflexivity.
Defined.

(** ** ConfigureDatabase *)

Lemma configsEqual_true a b : configsEqual a b = true -> a = Some b.
Proof.
  destruct a as [[e p r] |]; simpl; [| discriminate].
  destruct b as [e' p' r']; simpl.
  intros H. apply andb_true_iff in H as [H H3]. apply andb_true_iff in H as [H1 H2].
  apply Bool.eqb_prop in H1. apply String.eqb_eq in H2. apply Z.eqb_eq in H3.
  subst. reflexivity.
Qed.

Lemma configsEqual_refl b : configsEqual (Some b) b = true.
Proof.
  destruct b as [e p r]; simpl.
  rewrite Bool.eqb_reflx, String.eqb_refl, Z.eqb_refl. reflexivity.
Qed.

Lemma ConfigureDatabase_ok_config io o g g' :
  ConfigureDatabase io o g = (Ok tt, g') ->
  currentDBConfig g' = Some (normalizeDatabaseOptions o).
Proof.
  unfold ConfigureDatabase.
  destruct (configsEqual (currentDBConfig g) (normalizeDatabaseOptions o)) eqn:Heq.
  - intros H. injection H as <-. apply configsEqual_true. exact Heq.
  - destruct (negb _ || _).
    + intros H. injection H as <-. reflexivity.
    + destruct (newUsageStore io _ g); intros H; [| discriminate].
      injection H as <-. reflexivity.
Qed.

(** C5: after [ConfigureDatabase o] succeeds, calling it again with the
    same options (whatever the file system would do) returns no error and
    leaves the globals untouched: same configuration, same store pointer,
    no store opened or closed. *)
Theorem ConfigureDatabase_idempotent (io io' : bool) (o : DatabaseOptions)
    (g g' : Globals) (H : ConfigureDatabase io o g = (Ok tt, g')) :
  ConfigureDatabase io' o g' = (Ok tt, g').
Proof.
  pose proof (ConfigureDatabase_ok_config io o g g' H) as Hc.
  unfold ConfigureDatabase at 1. rewrite Hc, configsEqual_refl. reflexivity.
Qed.

Definition usage_opts : DatabaseOptions :=
  mkDatabaseOptions true "/var/lib/cliproxy//usage.db" 30.

Lemma ConfigureDatabase_idempotent_witness :
  ConfigureDatabase true usage_opts initial_globals =
    (Ok tt, snd (ConfigureDatabase true usage_opts initial_globals)) /\
  ConfigureDatabase false usage_opts
    (snd (ConfigureDatabase true usage_opts initial_globals)) =
    (Ok tt, snd (ConfigureDatabase true usage_opts initial_globals)).
Proof.
  assert (H : ConfigureDatabase true usage_opts initial_globals =
              (Ok tt, snd (ConfigureDatabase true usage_opts initial_globals)))
    by (vm_compute; reflexivity).
  split; [exact H |].
  exact (ConfigureDatabase_idempotent true false usage_opts initial_globals _ H).
Defined.

(** Globals reachable from program start by [ConfigureDatabase] calls. *)
Inductive configure_reachable : Globals -> Prop :=
| reach_init : configure_reachable initial_globals
| reach_step io o g r g' :
    configure_reachable g ->
    ConfigureDatabase io o g = (r, g') ->
    configure_reachable g'.

Definition globals_consistent (g : Globals) : Prop :=
  (forall c, currentDBConfig g = Some c -> 0 < RetentionDays c) /\
  (forall st, currentUsageStore g = Some st ->
     exists c, currentDBConfig g = Some c /\ retentionDays st = RetentionDays c).

Lemma normalize_retention o :
  RetentionDays (normalizeDatabaseOptions o) =
  if RetentionDays o <=? 0 then 14 else RetentionDays o.
Proof.
  unfold normalizeDatabaseOptions.
  destruct (RetentionDays o <=? 0);
    destruct (negb _); reflexivity.
Qed.

Lemma normalize_retention_pos o : 0 < RetentionDays (normalizeDatabaseOptions o).
Proof.
  rewrite normalize_retention.
  destruct (RetentionDays o <=? 0) eqn:H; [lia |]. apply Z.leb_gt in H. exact H.
Qed.

Lemma configure_reachable_consistent g :
  configure_reachable g -> globals_consistent g.
Proof.
  induction 1 as [| io o g r g' Hr IH Hstep].
  - split; simpl; discriminate.
  - unfold ConfigureDatabase in Hstep.
    destruct (configsEqual (currentDBConfig g) _) eqn:Heq.
    { injection Hstep as _ <-. exact IH. }
    destruct (negb _ || _).
    { injection Hstep as _ <-. split; simpl.
      - intros c Hc. injection Hc as <-. apply normalize_retention_pos.
      - discriminate. }
    unfold newUsageStore in Hstep.
    destruct (String.eqb _ _); [injection Hstep as _ <-; exact IH |].
    destruct (negb io); [injection Hstep as _ <-; exact IH |].
    injection Hstep as _ <-. split; simpl.
    + intros c Hc. injection Hc as <-. apply normalize_retention_pos.
    + intros st Hst. injection Hst as <-. eexists; split; reflexivity.
Qed.

(** ** Retention *)

Definition zero_retention_opts : DatabaseOptions :=
  mkDatabaseOptions true "/var/lib/cliproxy/usage.db" 0.

Definition old_fact_row : dbRecord :=
  toDbRecord (fun d => d) None 0 (qwen_record false 25).

(** A database holding one request (2023-11-14) and its aggregate row. *)
Definition old_db : usageDB :=
  snd (insert no_faults empty_db old_fact_row).

(** C3 (as stated, refuted): [ConfigureDatabase] with RetentionDays = 0
    succeeds, and the active store's retention pass thirty days later
    deletes the raw row and the aggregate row. *)
Lemma zero_retention_still_deletes :
  fst (ConfigureDatabase true zero_retention_opts initial_globals) = Ok tt /\
  length (usage_requests old_db) = 1%nat /\
  map_to_list (usage_daily old_db) <> [] /\
  let g := snd (ConfigureDatabase true zero_retention_opts initial_globals) in
  usage_requests (active_retention g no_retention_faults (1700000000 + 30 * 86400) old_db) = [] /\
  map_to_list (usage_daily
    (active_retention g no_retention_faults (1700000000 + 30 * 86400) old_db)) = [].
Proof. vm_compute. repeat split; discriminate. Qed.

(** C3 (amended): [ConfigureDatabase] normalises a RetentionDays <= 0 to
    14: on success the active configuration has RetentionDays = 14 and any
    active store has retentionDays = 14, so its retention pass is
    [applyRetention 14], whichever of its DELETEs fail; no store reachable through [ConfigureDatabase]
    has retentionDays <= 0, so the early return of [applyRetention] is
    never taken for them. *)
Theorem configure_nonpositive_retention (io : bool) (o : DatabaseOptions)
    (g g' : Globals) (Hg : configure_reachable g)
    (Hle : RetentionDays o <= 0)
    (H : ConfigureDatabase io o g = (Ok tt, g')) :
  currentDBConfig g' = Some (normalizeDatabaseOptions o) /\
  RetentionDays (normalizeDatabaseOptions o) = 14 /\
  (forall st, currentUsageStore g' = Some st ->
     retentionDays st = 14 /\
     forall rf now db, active_retention g' rf now db = applyRetention rf 14 now db) /\
  (forall g'' st, configure_reachable g'' -> currentUsageStore g'' = Some st ->
     0 < retentionDays st).
Proof.
  pose proof (ConfigureDatabase_ok_config io o g g' H) as Hc.
  assert (H14 : RetentionDays (normalizeDatabaseOptions o) = 14).
  { rewrite normalize_retention. apply Z.leb_le in Hle. rewrite Hle. reflexivity. }
  assert (Hcons : globals_consistent g')
    by (apply configure_reachable_consistent; eapply reach_step; eauto).
  split; [exact Hc | split; [exact H14 | split]].
  - intros st Hst. destruct Hcons as [_ Hst'].
    destruct (Hst' st Hst) as [c [Hc' Hr]]. rewrite Hc in Hc'.
    injection Hc' as <-. rewrite H14 in Hr.
    split; [exact Hr |]. intros rf now db. unfold active_retention. rewrite Hst, Hr.
    reflexivity.
  - intros g'' st Hg'' Hst.
    destruct (configure_reachable_consistent g'' Hg'') as [Hpos Hst'].
    destruct (Hst' st Hst) as [c [Hc' Hr]]. rewrite Hr. apply Hpos. exact Hc'.
Qed.

Lemma configure_nonpositive_retention_witness :
  configure_reachable initial_globals /\
  RetentionDays zero_retention_opts <= 0 /\
  ConfigureDatabase true zero_retention_opts initial_globals =
    (Ok tt, snd (ConfigureDatabase true zero_retention_opts initial_globals)) /\
  RetentionDays (normalizeDatabaseOptions zero_retention_opts) = 14.
Proof.
  assert (H0 : configure_reachable initial_globals) by constructor.
  assert (H1 : RetentionDays zero_retention_opts <= 0) by (simpl; lia).
  assert (H2 : ConfigureDatabase true zero_retention_opts initial_globals =
    (Ok tt, snd (ConfigureDatabase true zero_retention_opts initial_globals)))
    by (vm_compute; reflexivity).
  split; [exact H0 | split; [exact H1 | split; [exact H2 |]]].
  exact (proj1 (proj2 (configure_nonpositive_retention true zero_retention_opts
                          initial_globals _ H0 H1 H2))).
Defined.

(** ** enqueue on a stopped store *)

Lemma enqueue_no_panic (s : StoreChans) (rec : dbRecord) (o : Outcome)
    (s' : StoreChans) :
  queue_closed s = false -> enqueue s rec o s' -> o <> Panicked.
Proof. intros Hq Hs. inversion Hs; subst; congruence. Qed.

(** C4 (code defect): after [close] the [stop] channel is closed but the
    drained queue has free capacity, so both cases of the [select] in
    [enqueue] can proceed and Go may pick the send: [enqueue] returns nil
    and the record sits in a queue that no worker reads any more. *)
Theorem enqueue_after_close_accepts :
  let s := close_store new_store_chans in
  stop_closed s = true /\
  enqueue s old_fact_row (Returned None)
    (mkStoreChans [old_fact_row] 2048 false true) /\
  enqueue s old_fact_row (Returned (Some "usage: database store stopped")) s.
Proof.
  simpl. split; [reflexivity | split].
  - apply (enqueue_send (close_store new_store_chans)); simpl; [reflexivity | lia].
  - apply enqueue_stopped. reflexivity.
Qed.

(** ** TrimSpace *)

(** Concatenations of whitespace runes. *)
Inductive spaces : list nat -> Prop :=
| spaces_nil : spaces []
| spaces_cons e l : In e space_encodings -> spaces l -> spaces (e ++ l).

Lemma spaces_app a b : spaces a -> spaces b -> spaces (a ++ b).
Proof.
  induction 1 as [| e l He Hl IH]; intros Hb; simpl; [exact Hb |].
  rewrite <- app_assoc. constructor; auto.
Qed.

Lemma space_encodings_nonempty e : In e space_encodings -> e <> [].
Proof.
  intros He. simpl in He.
  repeat (destruct He as [<- | He]; [discriminate |]). contradiction.
Qed.

Lemma is_prefix_split e l : is_prefix e l = true -> l = e ++ skipn (length e) l.
Proof.
  revert l. induction e as [| x e IH]; intros l H; simpl; [reflexivity |].
  destruct l as [| y l]; [discriminate |].
  simpl in H. apply andb_true_iff in H as [Hxy H]. apply Nat.eqb_eq in Hxy.
  subst y. f_equal. apply IH. exact H.
Qed.

Lemma is_prefix_app e t u : is_prefix e t = true -> is_prefix e (t ++ u) = true.
Proof.
  revert t. induction e as [| x e IH]; intros t H; [reflexivity |].
  destruct t as [| y t]; [discriminate |].
  simpl in *. apply andb_true_iff in H as [Hxy H]. rewrite Hxy. simpl. auto.
Qed.

Lemma is_prefix_nil e : e <> [] -> is_prefix e [] = false.
Proof. destruct e; [contradiction | reflexivity]. Qed.

Lemma trim_left_split fuel l :
  exists pre, l = pre ++ trim_left fuel l /\ spaces pre.
Proof.
  revert l. induction fuel as [| f IH]; intros l; simpl.
  - exists []. split; [reflexivity | constructor].
  - unfold space_prefix.
    destruct (find (fun e => is_prefix e l) space_encodings) as [e |] eqn:Hf;
      [| exists []; split; [reflexivity | constructor]].
    apply find_some in Hf as [Hin Hpre].
    destruct (length e) as [| n] eqn:Hlen; [exists []; split; [reflexivity | constructor] |].
    destruct (IH (skipn (S n) l)) as [pre [Hl Hs]].
    exists (e ++ pre). split.
    + rewrite <- app_assoc, <- Hl, <- Hlen. apply is_prefix_split. exact Hpre.
    + apply spaces_app; [| exact Hs]. rewrite <- app_nil_r. constructor; [exact Hin | constructor].
Qed.

Lemma trim_left_done fuel l :
  (length l <= fuel)%nat ->
  forall e, In e space_encodings -> is_prefix e (trim_left fuel l) = false.
Proof.
  revert l. induction fuel as [| f IH]; intros l Hlen e He; simpl.
  - destruct l; [| simpl in Hlen; lia]. apply is_prefix_nil, space_encodings_nonempty, He.
  - unfold space_prefix.
    destruct (find (fun e => is_prefix e l) space_encodings) as [e0 |] eqn:Hf.
    + apply find_some in Hf as [Hin Hpre].
      destruct (length e0) as [| n] eqn:Hl0.
      { apply length_zero_iff_nil in Hl0. exfalso. exact (space_encodings_nonempty e0 Hin Hl0). }
      apply IH; [| exact He]. rewrite length_skipn. lia.
    + exact (find_none _ _ Hf e He).
Qed.

Lemma trim_right_split fuel rl :
  exists suf, rl = rev suf ++ trim_right_rev fuel rl /\ spaces suf.
Proof.
  revert rl. induction fuel as [| f IH]; intros rl; simpl.
  - exists []. split; [reflexivity | constructor].
  - unfold space_suffix.
    destruct (find (fun e => is_prefix (rev e) rl) space_encodings) as [e |] eqn:Hf;
      [| exists []; split; [reflexivity | constructor]].
    apply find_some in Hf as [Hin Hpre].
    destruct (length e) as [| n] eqn:Hlen; [exists []; split; [reflexivity | constructor] |].
    destruct (IH (skipn (S n) rl)) as [suf [Hl Hs]].
    exists (suf ++ e). split.
    + rewrite rev_app_distr, <- app_assoc, <- Hl, <- Hlen, <- length_rev.
      apply is_prefix_split. exact Hpre.
    + apply spaces_app; [exact Hs |]. rewrite <- app_nil_r. constructor; [exact Hin | constructor].
Qed.

Lemma trim_right_done fuel rl :
  (length rl <= fuel)%nat ->
  forall e, In e space_encodings -> is_prefix (rev e) (trim_right_rev fuel rl) = false.
Proof.
  revert rl. induction fuel as [| f IH]; intros rl Hlen e He; simpl.
  - destruct rl; [| simpl in Hlen; lia]. apply is_prefix_nil.
    intros Hr. apply (space_encodings_nonempty e He).
    rewrite <- (rev_involutive e), Hr. reflexivity.
  - unfold space_suffix.
    destruct (find (fun e => is_prefix (rev e) rl) space_encodings) as [e0 |] eqn:Hf.
    + apply find_some in Hf as [Hin Hpre].
      destruct (length e0) as [| n] eqn:Hl0.
      { apply length_zero_iff_nil in Hl0. exfalso. exact (space_encodings_nonempty e0 Hin Hl0). }
      apply IH; [| exact He]. rewrite length_skipn. lia.
    + exact (find_none _ _ Hf e He).
Qed.

Lemma bytes_of_bounded s : Forall (fun n => n < 256)%nat (bytes_of s).
Proof.
  unfold bytes_of. apply List.Forall_forall. intros n Hn.
  apply in_map_iff in Hn as [a [<- _]]. apply nat_ascii_bounded.
Qed.

Lemma bytes_of_string_of_bytes l :
  Forall (fun n => n < 256)%nat l -> bytes_of (string_of_bytes l) = l.
Proof.
  intros Hl. unfold bytes_of, string_of_bytes.
  rewrite list_ascii_of_string_of_list_ascii, map_map.
  induction Hl as [| x l Hx Hl IH]; simpl; [reflexivity |].
  rewrite nat_ascii_embedding by exact Hx. f_equal. exact IH.
Qed.

(** C7: [SetEndpoint s] followed by [GetEndpoint] returns [TrimSpace s],
    which is [s] with its leading and trailing whitespace runes removed:
    [s] is (leading whitespace) ++ result ++ (trailing whitespace), and the
    result neither starts nor ends with a whitespace rune. *)
Theorem SetEndpoint_GetEndpoint (p : OTLPPlugin) (s : string) :
  GetEndpoint (SetEndpoint p s) = TrimSpace s /\
  exists pre suf,
    bytes_of s = pre ++ bytes_of (TrimSpace s) ++ suf /\
    spaces pre /\ spaces suf /\
    forall e, In e space_encodings ->
      is_prefix e (bytes_of (TrimSpace s)) = false /\
      is_prefix (rev e) (rev (bytes_of (TrimSpace s))) = false.
Proof.
  split; [reflexivity |].
  set (l := bytes_of s).
  set (l1 := trim_left (length l) l).
  set (r := trim_right_rev (length l1) (rev l1)).
  destruct (trim_left_split (length l) l) as [pre [Hl Hpre]]. fold l1 in Hl.
  destruct (trim_right_split (length l1) (rev l1)) as [suf [Hr Hsuf]]. fold r in Hr.
  assert (Hl1 : l1 = rev r ++ suf).
  { rewrite <- (rev_involutive l1), Hr, rev_app_distr, rev_involutive. reflexivity. }
  assert (Hb : Forall (fun n => n < 256)%nat (rev r)).
  { pose proof (bytes_of_bounded s) as B. fold l in B.
    rewrite Hl, Hl1 in B. apply Forall_app in B as [_ B]. apply Forall_app in B as [B _].
    exact B. }
  assert (Ht : bytes_of (TrimSpace s) = rev r).
  { unfold TrimSpace. fold l. fold l1. fold r. apply bytes_of_string_of_bytes. exact Hb. }
  rewrite Ht. exists pre, suf. split; [| split; [exact Hpre | split; [exact Hsuf |]]].
  - rewrite <- Hl1. exact Hl.
  - intros e He. split.
    + destruct (is_prefix e (rev r)) eqn:Hp; [| reflexivity].
      pose proof (trim_left_done (length l) l (le_n _) e He) as Hd. fold l1 in Hd.
      rewrite Hl1, (is_prefix_app _ _ _ Hp) in Hd. discriminate.
    + rewrite rev_involutive.
      apply trim_right_done; [rewrite length_rev; apply le_n | exact He].
Qed.

(** ** The OTLP exporter *)

Lemma otlp_run_stays_disabled ok p ops posts p' :
  ~ In (OpSetEnabled true) ops -> enabled p = false ->
  otlp_run ok p ops posts p' -> enabled p' = false.
Proof.
  intros Hops Hp Hrun. revert Hops Hp.
  induction Hrun as [p | p op ops posts1 posts2 p1 p2 Hstep Hrun IH];
    intros Hops Hp; [exact Hp |].
  apply IH; [intros Hin; apply Hops; right; exact Hin |].
  inversion Hstep; subst; simpl; try exact Hp.
  - destruct b; [exfalso; apply Hops; left; reflexivity | reflexivity].
  - unfold flushBatch. destruct (batch p); exact Hp.
  - unfold flushBatch. simpl. destruct (batch p); exact Hp.
Qed.

(** C8: once [SetEnabled false] has run, and as long as no
    [SetEnabled true] follows (whatever endpoint changes, ticks or records
    come in between), the plugin stays disabled and [HandleUsage] makes no
    HTTP post and leaves the plugin unchanged, whatever endpoints the
    request builder accepts. *)
Theorem HandleUsage_disabled_sends_nothing (NewRequest_ok : string -> bool)
    (p : OTLPPlugin) (ops : list OTLPOp) (posts : list Post) (p' : OTLPPlugin)
    (Hops : ~ In (OpSetEnabled true) ops)
    (Hrun : otlp_run NewRequest_ok (SetEnabled p false) ops posts p') :
  IsEnabled p' = false /\
  forall ctx record posts' p'',
    otlp_step NewRequest_ok p' (OpHandleUsage ctx record) posts' p'' ->
    posts' = [] /\ p'' = p'.
Proof.
  assert (Hd : enabled p' = false)
    by (apply (otlp_run_stays_disabled NewRequest_ok (SetEnabled p false) ops posts p' Hops);
        [reflexivity | exact Hrun]).
  split; [exact Hd |].
  intros ctx record posts' p'' Hstep. inversion Hstep; subst.
  unfold HandleUsage. rewrite Hd. split; reflexivity.
Qed.

Definition disabled_plugin : OTLPPlugin :=
  SetEndpoint (SetEnabled (NewOTLPPlugin "") false) " http://collector:4318 ".

Lemma HandleUsage_disabled_sends_nothing_witness :
  ~ In (OpSetEnabled true) [OpSetEndpoint " http://collector:4318 "; OpTick] /\
  otlp_run (fun _ => true) (SetEnabled (NewOTLPPlugin "") false)
    [OpSetEndpoint " http://collector:4318 "; OpTick] ([] ++ ([] ++ []))
    disabled_plugin /\
  IsEnabled disabled_plugin = false.
Proof.
  assert (H1 : ~ In (OpSetEnabled true) [OpSetEndpoint " http://collector:4318 "; OpTick]).
  { simpl. intros [H | [H | H]]; [discriminate | discriminate | exact H]. }
  assert (H2 : otlp_run (fun _ => true) (SetEnabled (NewOTLPPlugin "") false)
                 [OpSetEndpoint " http://collector:4318 "; OpTick] ([] ++ ([] ++ []))
                 disabled_plugin).
  { eapply run_cons; [apply step_set_endpoint |].
    eapply run_cons; [apply step_tick; reflexivity |].
    apply run_nil. }
  split; [exact H1 | split; [exact H2 |]].
  exact (proj1 (HandleUsage_disabled_sends_nothing _ _ _ _ _ H1 H2)).
Defined.

Lemma otlp_step_batch_empty ok p op posts p' :
  otlp_step ok p op posts p' -> batch p = [] -> batch p' = [].
Proof.
  intros Hstep Hb. inversion Hstep; subst; simpl; try exact Hb.
  - unfold flushBatch. rewrite Hb. exact Hb.
  - subst p'0. unfold flushBatch. simpl. rewrite Hb. reflexivity.
Qed.

Lemma otlp_run_batch_empty ok p ops posts p' :
  otlp_run ok p ops posts p' -> batch p = [] -> batch p' = [].
Proof.
  induction 1 as [p | p op ops posts1 posts2 p1 p2 Hstep Hrun IH]; intros Hb;
    [exact Hb |].
  apply IH. exact (otlp_step_batch_empty _ _ _ _ _ Hstep Hb).
Qed.

(** C9: in every state reachable from [NewOTLPPlugin] the batch buffer is
    empty and no operation makes it non-empty; a periodic flush tick and
    the final flush of [Close] post nothing, while [HandleUsage] leaves the
    plugin as it is and, when enabled, hands its event at once to
    [sendEvent]. *)
Theorem otlp_batch_always_empty (NewRequest_ok : string -> bool) (p : OTLPPlugin)
    (Hp : otlp_reachable NewRequest_ok p) :
  batch p = [] /\
  (forall op posts p', otlp_step NewRequest_ok p op posts p' -> batch p' = []) /\
  (forall posts p', otlp_step NewRequest_ok p OpTick posts p' -> posts = []) /\
  (forall posts p', otlp_step NewRequest_ok p OpClose posts p' -> posts = []) /\
  (forall ctx record posts p',
     otlp_step NewRequest_ok p (OpHandleUsage ctx record) posts p' ->
     p' = p /\
     posts = if IsEnabled p
             then sendEvent NewRequest_ok p (convertRecordToEvent ctx record)
             else []).
Proof.
  destruct Hp as [env [ops [posts Hrun]]].
  assert (Hb : batch p = []) by (eapply otlp_run_batch_empty; [exact Hrun | reflexivity]).
  split; [exact Hb | split; [| split; [| split]]].
  - intros op posts' p' Hstep. exact (otlp_step_batch_empty _ _ _ _ _ Hstep Hb).
  - intros posts' p' Hstep. inversion Hstep; subst.
    unfold flushBatch. rewrite Hb. reflexivity.
  - intros posts' p' Hstep. inversion Hstep; subst.
    unfold flushBatch. simpl. rewrite Hb. reflexivity.
  - intros ctx record posts' p' Hstep. inversion Hstep; subst.
    split; [reflexivity |]. unfold HandleUsage, IsEnabled.
    destruct (enabled _); reflexivity.
Qed.

Definition any_endpoint_ok : string -> bool := fun _ => true.

(** A plugin after records, an endpoint change, a disable, a tick and a
    re-enable; and the same plugin after [Close] and one more record. *)
Definition busy_ops : list OTLPOp :=
  [OpHandleUsage None anonymous_record;
   OpSetEndpoint " http://collector:4318/v1/logs ";
   OpSetEnabled false; OpTick; OpHandleUsage None anonymous_record;
   OpSetEnabled true].

Definition busy_plugin : OTLPPlugin :=
  SetEnabled (SetEnabled (SetEndpoint (NewOTLPPlugin "")
                            " http://collector:4318/v1/logs ") false) true.

Definition closed_busy_plugin : OTLPPlugin :=
  fst (flushBatch any_endpoint_ok
         (mkOTLPPlugin (endpoint busy_plugin) (enabled busy_plugin)
            (batch busy_plugin) (batchSize busy_plugin) true)).

Lemma busy_run :
  exists posts, otlp_run any_endpoint_ok (NewOTLPPlugin "") busy_ops posts busy_plugin.
Proof.
  eexists. unfold busy_ops.
  eapply run_cons; [apply step_handle |].
  eapply run_cons; [apply step_set_endpoint |].
  eapply run_cons; [apply step_set_enabled |].
  eapply run_cons; [apply step_tick; reflexivity |].
  eapply run_cons; [apply step_handle |].
  eapply run_cons; [apply step_set_enabled |].
  apply run_nil.
Qed.

Lemma busy_reachable : otlp_reachable any_endpoint_ok busy_plugin.
Proof.
  destruct busy_run as [posts H]. exists "", busy_ops, posts. exact H.
Qed.

Lemma otlp_run_app ok p ops1 ops2 posts1 posts2 p1 p2 :
  otlp_run ok p ops1 posts1 p1 -> otlp_run ok p1 ops2 posts2 p2 ->
  otlp_run ok p (ops1 ++ ops2) (posts1 ++ posts2) p2.
Proof.
  induction 1 as [p | p op ops posts1 posts3 p1 p3 Hstep Hrun IH]; intros H2;
    [exact H2 |].
  rewrite <- app_assoc. simpl. eapply run_cons; [exact Hstep | apply IH; exact H2].
Qed.

Lemma closed_busy_reachable : otlp_reachable any_endpoint_ok closed_busy_plugin.
Proof.
  destruct busy_run as [posts H].
  exists "", (busy_ops ++ [OpClose; OpHandleUsage None anonymous_record]).
  eexists. eapply otlp_run_app; [exact H |].
  eapply run_cons; [apply step_close; reflexivity |].
  eapply run_cons; [apply step_handle |].
  apply run_nil.
Qed.

Lemma otlp_batch_always_empty_witness :
  otlp_reachable any_endpoint_ok busy_plugin /\
  otlp_reachable any_endpoint_ok closed_busy_plugin /\
  batch busy_plugin = [] /\ batch closed_busy_plugin = [] /\
  otlp_step any_endpoint_ok busy_plugin OpTick [] busy_plugin /\
  HandleUsage any_endpoint_ok closed_busy_plugin None anonymous_record =
    [mkPost "http://collector:4318/v1/logs"
            (convertRecordToEvent None anonymous_record)].
Proof.
  split; [exact busy_reachable |]. split; [exact closed_busy_reachable |].
  split; [exact (proj1 (otlp_batch_always_empty _ _ busy_reachable)) |].
  split; [exact (proj1 (otlp_batch_always_empty _ _ closed_busy_reachable)) |].
  split.
  - assert (S : otlp_step any_endpoint_ok busy_plugin OpTick
                  (snd (flushBatch any_endpoint_ok busy_plugin))
                  (fst (flushBatch any_endpoint_ok busy_plugin)))
      by (apply step_tick; reflexivity).
    pose proof (proj1 (proj2 (proj2 (otlp_batch_always_empty _ _ busy_reachable))) _ _ S)
      as Hposts.
    rewrite Hposts in S. exact S.
  - vm_compute. reflexivity.
Defined.

(* ================================================================== *)
(** * Further properties of the store *)

(** ** The fact table *)

(** The insert worker appends exactly the committed rows to
    [usage_requests], in queue order; failed inserts add nothing. *)
Theorem run_inserts_requests (normaliseDetail : TokenStats -> TokenStats)
    (db : usageDB) (es : list UsageEvent) :
  usage_requests (run_inserts normaliseDetail db es) =
  usage_requests db ++
    map (event_row normaliseDetail)
        (List.filter (fun e => insert_succeeds (event_faults e)) es).
Proof.
  revert db. induction es as [| e es IH]; intros db; simpl.
  - rewrite app_nil_r. reflexivity.
  - rewrite IH, insert_cases.
    destruct (insert_succeeds (event_faults e)); simpl; [| reflexivity].
    rewrite <- app_assoc. reflexivity.
Qed.

(** ** Aggregate labels *)

Lemma run_inserts_untouched (normaliseDetail : TokenStats -> TokenStats)
    (k : DailyKey) (db : usageDB) (es : list UsageEvent) :
  committed_at normaliseDetail k es = [] ->
  usage_daily (run_inserts normaliseDetail db es) !! k = usage_daily db !! k.
Proof.
  revert db. induction es as [| e es IH]; intros db Hnil; simpl; [reflexivity |].
  unfold committed_at in Hnil. cbn [List.filter] in Hnil.
  rewrite IH.
  2:{ destruct (_ && _); [discriminate | exact Hnil]. }
  rewrite insert_cases.
  destruct (insert_succeeds (event_faults e)) eqn:Hs; simpl; [| reflexivity].
  destruct (decide (daily_key (event_row normaliseDetail e) = k)) as [Hk | Hk].
  - simpl in Hnil. rewrite (bool_decide_eq_true_2 _ Hk) in Hnil. discriminate.
  - apply upsert_daily_lookup_ne. exact Hk.
Qed.

(** The credential label of an aggregate row is the label of the last
    record committed under its key (labels built by [HandleUsage] are never
    empty, so every upsert overwrites it), whatever the row held before. *)
Theorem daily_label_last_committed (normaliseDetail : TokenStats -> TokenStats)
    (db : usageDB) (es : list UsageEvent) (k : DailyKey)
    (Hsome : committed_at normaliseDetail k es <> []) :
  option_map row_label (usage_daily (run_inserts normaliseDetail db es) !! k) =
  Some (List.last (map (fun e => credentialLabel (event_record e))
                       (committed_at normaliseDetail k es)) "").
Proof.
  revert db Hsome. induction es as [| e es IH]; intros db Hsome; [contradiction |].
  simpl run_inserts.
  destruct (decide (committed_at normaliseDetail k es = [])) as [Hnil | Hcons].
  - unfold committed_at in Hsome |- *. cbn [List.filter] in Hsome |- *.
    unfold committed_at in Hnil. rewrite Hnil in Hsome |- *.
    destruct (insert_succeeds (event_faults e) &&
              bool_decide (daily_key (event_row normaliseDetail e) = k)) eqn:Hb;
      [| contradiction].
    apply andb_true_iff in Hb as [Hs Hk]. apply bool_decide_eq_true in Hk.
    rewrite run_inserts_untouched by exact Hnil.
    rewrite insert_cases, Hs. simpl. rewrite <- Hk, upsert_daily_lookup.
    destruct e as [[[ctx now] record] f]. simpl.
    destruct (usage_daily db !! _); simpl; [| reflexivity].
    destruct (String.eqb_spec (credentialLabel record) "") as [He |];
      [exfalso; exact (credentialLabel_nonempty record He) | reflexivity].
  - rewrite IH by exact Hcons.
    unfold committed_at. cbn [List.filter].
    destruct (_ && _); [| reflexivity].
    unfold committed_at in Hcons.
    destruct (List.filter _ es) as [| e' s'] eqn:Hs; [contradiction |].
    reflexivity.
Qed.

Lemma daily_label_last_committed_witness :
  committed_at (fun d => d) qwen_key qwen_events <> [] /\
  option_map row_label
    (usage_daily (run_inserts (fun d => d) empty_db qwen_events) !! qwen_key)
  = Some "auth-A".
Proof.
  assert (H : committed_at (fun d => d) qwen_key qwen_events <> [])
    by (vm_compute; discriminate).
  split; [exact H |].
  rewrite (daily_label_last_committed (fun d => d) empty_db qwen_events qwen_key H).
  vm_compute. reflexivity.
Defined.

(** ** Aggregate token sums *)

Definition row_token_sums (m : gmap DailyKey DailyRow) (k : DailyKey) : Z * Z :=
  match m !! k with
  | None => (0, 0)
  | Some r => (prompt_tokens r, completion_tokens r)
  end.

Lemma row_token_sums_upsert m k k' ex :
  row_token_sums (upsert_daily m k ex) k' =
  if bool_decide (k = k')
  then (fst (row_token_sums m k') + prompt_tokens ex,
        snd (row_token_sums m k') + completion_tokens ex)
  else row_token_sums m k'.
Proof.
  unfold row_token_sums. case_bool_decide as Hk.
  - subst k'. rewrite upsert_daily_lookup.
    destruct (m !! k); simpl; [reflexivity |]. destruct ex; reflexivity.
  - rewrite upsert_daily_lookup_ne by exact Hk. reflexivity.
Qed.

(** The aggregate row's prompt_tokens and completion_tokens grow by the
    (normalised) input and output token counts of every record committed
    under its key, and nothing else. *)
Theorem run_inserts_token_sums (normaliseDetail : TokenStats -> TokenStats)
    (db : usageDB) (es : list UsageEvent) (k : DailyKey) :
  let s := committed_at normaliseDetail k es in
  row_token_sums (usage_daily (run_inserts normaliseDetail db es)) k =
  (fst (row_token_sums (usage_daily db) k) +
     fold_right Z.add 0
       (map (fun e => InputTokens (normaliseDetail (Detail (event_record e)))) s),
   snd (row_token_sums (usage_daily db) k) +
     fold_right Z.add 0
       (map (fun e => OutputTokens (normaliseDetail (Detail (event_record e)))) s)).
Proof.
  intros s. subst s. revert db. induction es as [| e es IH]; intros db; simpl.
  - destruct (row_token_sums (usage_daily db) k); simpl. rewrite !Z.add_0_r. reflexivity.
  - rewrite IH, insert_cases. unfold committed_at. cbn [List.filter].
    destruct (insert_succeeds (event_faults e)); simpl; [| reflexivity].
    rewrite row_token_sums_upsert.
    case_bool_decide as Hk; simpl; [| reflexivity].
    destruct e as [[[ctx now] record] f]. simpl.
    destruct (row_token_sums (usage_daily db) k) as [a b]. simpl.
    rewrite !Z.add_assoc. reflexivity.
Qed.

(** ** Retention *)

Lemma retention_requests_filter (c : Z) (l : list dbRecord) :
  filter (fun r => negb (Timestamp r * 1000000000 <? c)) l =
  List.filter (fun r => c <=? Timestamp r * 1000000000) l.
Proof.
  induction l as [| r l IH]; [reflexivity |].
  rewrite filter_cons. simpl. rewrite IH.
  destruct (Z.ltb_spec (Timestamp r * 1000000000) c),
           (Z.leb_spec c (Timestamp r * 1000000000));
    simpl; try lia; reflexivity.
Qed.

(** The cutoff of a retention pass, in nanoseconds. *)
Definition retention_cutoff (rd now : Z) : Z :=
  now * 1000000000 + wrap64 (wrap64 (wrap64 (- rd) * 24) * Hour).

Lemma retention_shape (rf : RetentionFaults) (rd now : Z) (db : usageDB)
    (Hrd : 0 < rd) :
  usage_requests (applyRetention rf rd now db) =
    (if rf DeleteRequests then usage_requests db
     else List.filter (fun r => retention_cutoff rd now <=? Timestamp r * 1000000000)
                      (usage_requests db)) /\
  forall (k : DailyKey) (row : DailyRow),
    usage_daily (applyRetention rf rd now db) !! k = Some row <->
    usage_daily db !! k = Some row /\
    (rf DeleteDaily = true \/
     day_of (retention_cutoff rd now / 1000000000) <= k.1.1.1).
Proof.
  set (cd := day_of (retention_cutoff rd now / 1000000000)).
  assert (HD : forall (m : gmap DailyKey DailyRow) k row,
             filter (fun (kv : DailyKey * DailyRow) => negb (kv.1.1.1.1 <? cd)) m !! k
               = Some row <-> m !! k = Some row /\ cd <= k.1.1.1).
  { intros m k row. rewrite map_lookup_filter_Some. simpl.
    destruct (Z.ltb_spec k.1.1.1 cd); simpl;
      split; intros [Hl Hr]; split; try assumption; try lia; exact I. }
  unfold applyRetention. destruct (Z.leb_spec rd 0); [lia |].
  fold (retention_cutoff rd now). fold cd.
  destruct (rf DeleteRequests), (rf DeleteDaily); simpl;
    (split; [reflexivity || apply retention_requests_filter |]);
    intros k row; rewrite ?HD; intuition discriminate.
Qed.

Lemma wrap64_small x : - 2 ^ 63 <= x < 2 ^ 63 -> wrap64 x = x.
Proof.
  intros H. unfold wrap64. rewrite Z.mod_small by lia. lia.
Qed.

Lemma retention_cutoff_small (rd now : Z) :
  0 < rd <= 106751 -> retention_cutoff rd now = (now - rd * 86400) * 1000000000.
Proof.
  intros H. unfold retention_cutoff, Hour.
  rewrite (wrap64_small (- rd)) by lia.
  rewrite (wrap64_small (- rd * 24)) by lia.
  rewrite wrap64_small by lia. lia.
Qed.

(** For a retention of 1 to 106751 days (where the [time.Duration] does not
    overflow), a retention pass at [now] whose first DELETE succeeds keeps
    exactly the fact rows with timestamp at or after [now - rd days], in
    order; one whose second DELETE succeeds keeps exactly the aggregate rows
    whose day is not before the cutoff's day.  A failed DELETE keeps its
    whole table, and a kept row is left untouched. *)
Theorem applyRetention_horizon (rf : RetentionFaults) (rd now : Z) (db : usageDB)
    (Hrd : 0 < rd <= 106751) :
  usage_requests (applyRetention rf rd now db) =
    (if rf DeleteRequests then usage_requests db
     else List.filter (fun r => now - rd * 86400 <=? Timestamp r) (usage_requests db)) /\
  forall (k : DailyKey) (row : DailyRow),
    usage_daily (applyRetention rf rd now db) !! k = Some row <->
    usage_daily db !! k = Some row /\
    (rf DeleteDaily = true \/ day_of (now - rd * 86400) <= k.1.1.1).
Proof.
  destruct (retention_shape rf rd now db (proj1 Hrd)) as [R D].
  rewrite retention_cutoff_small in R, D by exact Hrd.
  rewrite Z.div_mul in D by lia.
  split; [| exact D].
  rewrite R. destruct (rf DeleteRequests); [reflexivity |].
  apply List.filter_ext. intros r.
  destruct (Z.leb_spec (now - rd * 86400) (Timestamp r)),
           (Z.leb_spec ((now - rd * 86400) * 1000000000) (Timestamp r * 1000000000));
    reflexivity || lia.
Qed.

Lemma applyRetention_horizon_witness :
  0 < 14 <= 106751 /\
  usage_requests (applyRetention no_retention_faults 14 (1700000000 + 30 * 86400) old_db)
    = [].
Proof.
  assert (H : 0 < 14 <= 106751) by lia. split; [exact H |].
  rewrite (proj1 (applyRetention_horizon no_retention_faults 14
                    (1700000000 + 30 * 86400) old_db H)).
  vm_compute. reflexivity.
Defined.

Lemma List_filter_twice {A : Type} (f : A -> bool) (l : list A) :
  List.filter f (List.filter f l) = List.filter f l.
Proof.
  induction l as [| x l IH]; simpl; [reflexivity |].
  destruct (f x) eqn:Hx; simpl; [rewrite Hx, IH | rewrite IH]; reflexivity.
Qed.

(** Two retention passes at the same instant, with any DELETE failures,
    leave the same tables as one pass in which a DELETE fails only when it
    failed in both: a table is cut back to the horizon as soon as one of
    its DELETEs succeeds, and a second successful DELETE removes nothing
    more. *)
Theorem applyRetention_twice (rf1 rf2 : RetentionFaults) (rd now : Z)
    (db : usageDB) :
  applyRetention rf2 rd now (applyRetention rf1 rd now db) =
  applyRetention (fun s => rf1 s && rf2 s) rd now db.
Proof.
  destruct (Z.leb_spec rd 0) as [Hle | Hgt].
  - unfold applyRetention. apply Z.leb_le in Hle. rewrite Hle. reflexivity.
  - set (rf := fun s => rf1 s && rf2 s).
    destruct (retention_shape rf1 rd now db Hgt) as [R1 D1].
    destruct (retention_shape rf2 rd now (applyRetention rf1 rd now db) Hgt) as [R2 D2].
    destruct (retention_shape rf rd now db Hgt) as [R D].
    destruct (applyRetention rf2 rd now (applyRetention rf1 rd now db)) as [r2 d2].
    destruct (applyRetention rf rd now db) as [r d].
    destruct (applyRetention rf1 rd now db) as [r1 d1]. simpl in *.
    subst rf. simpl in R, D. f_equal.
    + rewrite R2, R, R1.
      destruct (rf1 DeleteRequests), (rf2 DeleteRequests); simpl;
        try reflexivity; apply List_filter_twice.
    + apply map_eq. intros k. apply option_eq. intros row.
      rewrite D2, D1, D.
      destruct (rf1 DeleteDaily), (rf2 DeleteDaily); simpl; intuition congruence.
Qed.

(** The [int64] nanosecond arithmetic of the cutoff overflows for a
    retention of 106752 days: the cutoff lands about 292 years after [now],
    so a retention pass without DELETE failures removes every fact row not
    stamped in the future and every aggregate row up to today, instead of
    keeping them. *)
Theorem applyRetention_overflow_deletes_all (now : Z) (db : usageDB)
    (Hreq : Forall (fun r => Timestamp r <= now) (usage_requests db))
    (Hday : map_Forall (fun (k : DailyKey) (_ : DailyRow) => k.1.1.1 <= day_of now)
                       (usage_daily db)) :
  usage_requests (applyRetention no_retention_faults 106752 now db) = [] /\
  usage_daily (applyRetention no_retention_faults 106752 now db) = ∅.
Proof.
  destruct (retention_shape no_retention_faults 106752 now db ltac:(lia)) as [R D].
  assert (Hc : retention_cutoff 106752 now = now * 1000000000 + 9223371273709551616).
  { unfold retention_cutoff. f_equal; vm_compute; reflexivity. }
  rewrite Hc in R, D. change (no_retention_faults DeleteRequests) with false in R.
  change (no_retention_faults DeleteDaily) with false in D. cbv iota in R. split.
  - rewrite R. clear R D Hday. induction Hreq as [| r l Hr Hl IH]; [reflexivity |].
    simpl. destruct (Z.leb_spec (now * 1000000000 + 9223371273709551616)
                                (Timestamp r * 1000000000)); [lia |]. exact IH.
  - apply map_eq. intros k. rewrite lookup_empty.
    destruct (usage_daily (applyRetention no_retention_faults 106752 now db) !! k)
      as [row |] eqn:Hk; [| reflexivity].
    apply D in Hk as [Hk [Hf | Hlt]]; [discriminate |].
    specialize (Hday k row Hk). simpl in Hday.
    rewrite Z.div_add_l in Hlt by lia.
    change (9223371273709551616 / 1000000000) with 9223371273 in Hlt.
    unfold day_of in Hday, Hlt.
    assert (Hm : (now + 86400) / 86400 <= (now + 9223371273) / 86400)
      by (apply Z.div_le_mono; lia).
    replace (now + 86400) with (now + 1 * 86400) in Hm by lia.
    rewrite Z.div_add in Hm by lia. lia.
Qed.

Definition fresh_db (now : Z) : usageDB :=
  snd (insert no_faults empty_db (toDbRecord (fun d => d) None now anonymous_record)).

Lemma applyRetention_overflow_deletes_all_witness :
  Forall (fun r => Timestamp r <= 1700000000) (usage_requests (fresh_db 1700000000)) /\
  map_Forall (fun (k : DailyKey) (_ : DailyRow) => k.1.1.1 <= day_of 1700000000)
             (usage_daily (fresh_db 1700000000)) /\
  length (usage_requests (fresh_db 1700000000)) = 1%nat /\
  usage_requests (applyRetention no_retention_faults 106752 1700000000
                    (fresh_db 1700000000)) = [].
Proof.
  set (row := toDbRecord (fun d => d) None 1700000000 anonymous_record).
  assert (E : fresh_db 1700000000 =
              mkUsageDB [row] (upsert_daily empty (daily_key row) (excluded_row row)))
    by (unfold fresh_db; rewrite insert_cases; reflexivity).
  assert (H1 : Forall (fun r => Timestamp r <= 1700000000)
                      (usage_requests (fresh_db 1700000000))).
  { rewrite E. constructor; [vm_compute; intros H; discriminate H | constructor]. }
  assert (H2 : map_Forall (fun (k : DailyKey) (_ : DailyRow) => k.1.1.1 <= day_of 1700000000)
                          (usage_daily (fresh_db 1700000000))).
  { rewrite E. unfold upsert_daily. cbn [usage_daily]. rewrite lookup_empty.
    apply map_Forall_insert_2; [vm_compute; intros H; discriminate H |].
    apply map_Forall_empty. }
  split; [exact H1 | split; [exact H2 | split; [rewrite E; reflexivity |]]].
  exact (proj1 (applyRetention_overflow_deletes_all 1700000000 _ H1 H2)).
Defined.

(** ** normalizeDatabaseOptions and configsEqual *)

Lemma Clean_nonempty (p : string) : Clean p <> "".
Proof.
  unfold Clean. destruct (list_ascii_of_string p) as [| c r]; [discriminate |].
  destruct (clean_loop _ _ _ _ _); discriminate.
Qed.

Lemma normalize_spec (o : DatabaseOptions) :
  Enabled (normalizeDatabaseOptions o) = Enabled o /\
  (Path (normalizeDatabaseOptions o) = "" <-> Path o = "") /\
  RetentionDays (normalizeDatabaseOptions o) =
    (if RetentionDays o <=? 0 then 14 else RetentionDays o).
Proof.
  split; [| split; [| apply normalize_retention]].
  - unfold normalizeDatabaseOptions.
    destruct (RetentionDays o <=? 0), (negb _); reflexivity.
  - unfold normalizeDatabaseOptions.
    destruct (RetentionDays o <=? 0); simpl;
      destruct (String.eqb_spec (Path o) "") as [He | Hne]; simpl;
      split; intros Hc; try assumption; try contradiction;
      exfalso; exact (Clean_nonempty _ Hc).
Qed.

(** Normalisation keeps [Enabled], keeps the path empty exactly when it
    was empty, and replaces a non-positive retention by 14 while keeping a
    positive one. *)
Theorem normalizeDatabaseOptions_spec (o : DatabaseOptions) :
  Enabled (normalizeDatabaseOptions o) = Enabled o /\
  (Path (normalizeDatabaseOptions o) = "" <-> Path o = "") /\
  RetentionDays (normalizeDatabaseOptions o) =
    (if RetentionDays o <=? 0 then 14 else RetentionDays o).
Proof. exact (normalize_spec o). Qed.

(** ** The lifecycle of stores under ConfigureDatabase *)

Definition store_lifecycle_ok (g : Globals) : Prop :=
  List.NoDup (closed_stores g) /\
  (forall i, In i (closed_stores g) -> (i < next_store g)%nat) /\
  (forall st, currentUsageStore g = Some st ->
     (store_id st < next_store g)%nat /\ ~ In (store_id st) (closed_stores g) /\
     exists c, currentDBConfig g = Some c /\ Enabled c = true /\
       Path c = store_path st /\ store_path st <> "" /\
       retentionDays st = RetentionDays c).

Lemma close_old_nodup (old : option usageStore) (g : Globals) :
  store_lifecycle_ok g -> currentUsageStore g = old ->
  List.NoDup (close_old old (closed_stores g)) /\
  (forall i, In i (close_old old (closed_stores g)) -> (i < next_store g)%nat).
Proof.
  intros [Hnd [Hlt Hst]] <-. destruct (currentUsageStore g) as [st |] eqn:Hs; simpl.
  - destruct (Hst st eq_refl) as [Hid [Hnin _]]. split.
    + constructor; assumption.
    + intros i [<- | Hi]; [exact Hid | exact (Hlt i Hi)].
  - split; assumption.
Qed.

Lemma reachable_lifecycle (g : Globals) (Hg : configure_reachable g) :
  store_lifecycle_ok g.
Proof.
  induction Hg as [| io o g r g' Hr IH Hstep].
  - split; [constructor | split; simpl; [contradiction | discriminate]].
  - pose proof (close_old_nodup (currentUsageStore g) g IH eq_refl) as [Hnd Hlt].
    unfold ConfigureDatabase in Hstep.
    destruct (configsEqual (currentDBConfig g) _) eqn:Heq.
    { injection Hstep as _ <-. exact IH. }
    destruct (negb (Enabled (normalizeDatabaseOptions o)) ||
              String.eqb (Path (normalizeDatabaseOptions o)) "") eqn:Hdis.
    { injection Hstep as _ <-. split; [exact Hnd |]. split; [exact Hlt |].
      simpl. discriminate. }
    apply orb_false_iff in Hdis as [Hen Hp].
    apply negb_false_iff in Hen. apply String.eqb_neq in Hp.
    unfold newUsageStore in Hstep.
    destruct (String.eqb _ _) eqn:Hp'; [apply String.eqb_eq in Hp'; contradiction |].
    destruct (negb io); [injection Hstep as _ <-; exact IH |].
    injection Hstep as _ <-. split; [exact Hnd |]. split.
    + simpl. intros i Hi. specialize (Hlt i Hi). lia.
    + simpl. intros st Hst. injection Hst as <-. simpl. split; [lia |]. split.
      * intros Hin. specialize (Hlt _ Hin). lia.
      * exists (normalizeDatabaseOptions o). repeat split; assumption.
Qed.

(** Along any sequence of [ConfigureDatabase] calls from program start,
    no store is closed twice (a second [close(s.stop)] would panic), only
    stores that were created are closed, and the active store is open and
    agrees with the active configuration: enabled, same non-empty path,
    same retention. *)
Theorem configure_store_lifecycle (g : Globals) (Hg : configure_reachable g) :
  store_lifecycle_ok g.
Proof. exact (reachable_lifecycle g Hg). Qed.

Definition enabled_step_globals : Globals :=
  snd (ConfigureDatabase true usage_opts initial_globals).

Lemma enabled_step_reachable : configure_reachable enabled_step_globals.
Proof.
  apply (reach_step true usage_opts initial_globals
           (fst (ConfigureDatabase true usage_opts initial_globals))
           enabled_step_globals reach_init).
  reflexivity.
Qed.

(** Program start, then: enable at [usage_opts] (store 0); move to another
    path (store 0 closed, store 1 opened); a third path whose open fails
    (nothing changes); disable (store 1 closed); enable at [usage_opts]
    again (store 2). *)
Definition moved_opts : DatabaseOptions :=
  mkDatabaseOptions true "/srv/cliproxy/usage.db" 7.

Definition broken_opts : DatabaseOptions :=
  mkDatabaseOptions true "/readonly/usage.db" 0.

Definition lifecycle_step1 : Globals := snd (ConfigureDatabase true usage_opts initial_globals).
Definition lifecycle_step2 : Globals := snd (ConfigureDatabase true moved_opts lifecycle_step1).
Definition lifecycle_step3 : Globals := snd (ConfigureDatabase false broken_opts lifecycle_step2).
Definition lifecycle_step4 : Globals :=
  snd (ConfigureDatabase true (mkDatabaseOptions false "" 0) lifecycle_step3).
Definition lifecycle_step5 : Globals := snd (ConfigureDatabase true usage_opts lifecycle_step4).

Lemma lifecycle_step5_reachable : configure_reachable lifecycle_step5.
Proof.
  assert (R1 : configure_reachable lifecycle_step1)
    by (eapply reach_step; [exact reach_init | apply surjective_pairing]).
  assert (R2 : configure_reachable lifecycle_step2)
    by (eapply reach_step; [exact R1 | apply surjective_pairing]).
  assert (R3 : configure_reachable lifecycle_step3)
    by (eapply reach_step; [exact R2 | apply surjective_pairing]).
  assert (R4 : configure_reachable lifecycle_step4)
    by (eapply reach_step; [exact R3 | apply surjective_pairing]).
  eapply reach_step; [exact R4 | apply surjective_pairing].
Qed.

Lemma configure_store_lifecycle_witness :
  configure_reachable lifecycle_step5 /\
  closed_stores lifecycle_step5 = [1; 0]%nat /\
  option_map store_id (currentUsageStore lifecycle_step5) = Some 2%nat /\
  store_lifecycle_ok lifecycle_step5.
Proof.
  split; [exact lifecycle_step5_reachable |].
  split; [vm_compute; reflexivity |].
  split; [vm_compute; reflexivity |].
  exact (configure_store_lifecycle lifecycle_step5 lifecycle_step5_reachable).
Defined.

(** [ConfigureDatabase] fails only when the options are enabled with a
    non-empty path, differ from the active configuration, and opening the
    new store fails; it then leaves both globals as they were, so the old
    store keeps running under the old configuration. *)
Theorem ConfigureDatabase_error_keeps (io : bool) (o : DatabaseOptions)
    (g g' : Globals) (e : string)
    (Hstep : ConfigureDatabase io o g = (Err e, g')) :
  g' = g /\ io = false /\ Enabled o = true /\ Path o <> "" /\
  configsEqual (currentDBConfig g) (normalizeDatabaseOptions o) = false.
Proof.
  destruct (normalize_spec o) as [HE [HP _]].
  unfold ConfigureDatabase in Hstep.
  destruct (configsEqual _ _) eqn:Heq; [discriminate |].
  destruct (negb (Enabled (normalizeDatabaseOptions o)) ||
            String.eqb (Path (normalizeDatabaseOptions o)) "") eqn:Hdis;
    [discriminate |].
  apply orb_false_iff in Hdis as [Hen Hp].
  apply negb_false_iff in Hen. apply String.eqb_neq in Hp.
  unfold newUsageStore in Hstep.
  destruct (String.eqb _ _) eqn:Hp'; [apply String.eqb_eq in Hp'; contradiction |].
  destruct io; simpl in Hstep; [discriminate |].
  injection Hstep as _ <-. repeat split; try congruence.
  intros Ho. apply Hp, HP, Ho.
Qed.

Lemma ConfigureDatabase_error_keeps_witness :
  ConfigureDatabase false usage_opts initial_globals =
    (Err "usage: open sqlite", initial_globals) /\
  initial_globals = initial_globals /\ false = false /\
  Enabled usage_opts = true /\ Path usage_opts <> "" /\
  configsEqual (currentDBConfig initial_globals)
    (normalizeDatabaseOptions usage_opts) = false.
Proof.
  assert (H : ConfigureDatabase false usage_opts initial_globals =
                (Err "usage: open sqlite", initial_globals)) by reflexivity.
  split; [exact H |].
  exact (ConfigureDatabase_error_keeps false usage_opts initial_globals
           initial_globals _ H).
Defined.

(** From any reachable state, configuring with [Enabled = false] or an
    empty path always succeeds: afterwards no store is active, the
    normalised options are the active configuration, and the store that
    was active before (if any) has been closed. *)
Theorem ConfigureDatabase_disable (io : bool) (o : DatabaseOptions)
    (g : Globals) (Hg : configure_reachable g)
    (Hoff : Enabled o = false \/ Path o = "") :
  let '(r, g') := ConfigureDatabase io o g in
  r = Ok tt /\ currentUsageStore g' = None /\
  currentDBConfig g' = Some (normalizeDatabaseOptions o) /\
  (forall st, currentUsageStore g = Some st -> In (store_id st) (closed_stores g')).
Proof.
  destruct (normalize_spec o) as [HE [HP _]].
  assert (Hdis : negb (Enabled (normalizeDatabaseOptions o)) ||
                 String.eqb (Path (normalizeDatabaseOptions o)) "" = true).
  { destruct Hoff as [H | H].
    - rewrite HE, H. reflexivity.
    - apply orb_true_iff. right. apply String.eqb_eq, HP, H. }
  destruct (reachable_lifecycle g Hg) as [_ [_ Hst]].
  unfold ConfigureDatabase.
  destruct (configsEqual (currentDBConfig g) _) eqn:Heq.
  - apply configsEqual_true in Heq.
    destruct (currentUsageStore g) as [st |] eqn:Hs.
    + exfalso. destruct (Hst st eq_refl) as [_ [_ [c [Hc [Hen [Hpc [Hne _]]]]]]].
      rewrite Heq in Hc. injection Hc as <-.
      rewrite Hen in Hdis. simpl in Hdis. apply String.eqb_eq in Hdis.
      apply Hne. rewrite <- Hpc. exact Hdis.
    + repeat split; [exact Heq | discriminate].
  - rewrite Hdis. repeat split. simpl.
    intros st Hs. rewrite Hs. left. reflexivity.
Qed.

Definition disabled_opts : DatabaseOptions :=
  mkDatabaseOptions false (Path usage_opts) (RetentionDays usage_opts).

Lemma ConfigureDatabase_disable_witness :
  configure_reachable enabled_step_globals /\
  (Enabled disabled_opts = false \/ Path disabled_opts = "") /\
  let '(r, g') := ConfigureDatabase true disabled_opts enabled_step_globals in
  r = Ok tt /\ currentUsageStore g' = None /\
  currentDBConfig g' = Some (normalizeDatabaseOptions disabled_opts) /\
  (forall st, currentUsageStore enabled_step_globals = Some st ->
     In (store_id st) (closed_stores g')).
Proof.
  assert (H : configure_reachable enabled_step_globals)
    by exact enabled_step_reachable.
  assert (Ho : Enabled disabled_opts = false \/ Path disabled_opts = "")
    by (left; reflexivity).
  split; [exact H |]. split; [exact Ho |].
  exact (ConfigureDatabase_disable true disabled_opts enabled_step_globals H Ho).
Defined.

(** ** strings.TrimSpace is idempotent *)

Lemma find_all_false {A : Type} (f : A -> bool) (l : list A) :
  (forall x, In x l -> f x = false) -> find f l = None.
Proof.
  induction l as [| x l IH]; intros H; simpl; [reflexivity |].
  rewrite (H x (or_introl eq_refl)). apply IH. intros y Hy. apply H. right. exact Hy.
Qed.

Lemma trim_left_noop fuel l :
  (forall e, In e space_encodings -> is_prefix e l = false) -> trim_left fuel l = l.
Proof.
  intros H. destruct fuel as [| f]; simpl; [reflexivity |].
  unfold space_prefix. rewrite find_all_false by exact H. reflexivity.
Qed.

Lemma trim_right_noop fuel rl :
  (forall e, In e space_encodings -> is_prefix (rev e) rl = false) ->
  trim_right_rev fuel rl = rl.
Proof.
  intros H. destruct fuel as [| f]; simpl; [reflexivity |].
  unfold space_suffix. rewrite find_all_false by exact H. reflexivity.
Qed.

Lemma string_of_bytes_of t : string_of_bytes (bytes_of t) = t.
Proof.
  unfold string_of_bytes, bytes_of. rewrite map_map.
  rewrite (map_ext _ (fun c => c)) by (intros c; apply ascii_nat_embedding).
  rewrite map_id. apply string_of_list_ascii_of_string.
Qed.

Lemma TrimSpace_trimmed (s : string) :
  forall e, In e space_encodings ->
    is_prefix e (bytes_of (TrimSpace s)) = false /\
    is_prefix (rev e) (rev (bytes_of (TrimSpace s))) = false.
Proof.
  set (l := bytes_of s).
  set (l1 := trim_left (length l) l).
  set (r := trim_right_rev (length l1) (rev l1)).
  destruct (trim_left_split (length l) l) as [pre [Hl _]]. fold l1 in Hl.
  destruct (trim_right_split (length l1) (rev l1)) as [suf [Hr _]]. fold r in Hr.
  assert (Hl1 : l1 = rev r ++ suf).
  { rewrite <- (rev_involutive l1), Hr, rev_app_distr, rev_involutive. reflexivity. }
  assert (Hb : Forall (fun n => n < 256)%nat (rev r)).
  { pose proof (bytes_of_bounded s) as B. fold l in B.
    rewrite Hl, Hl1 in B. apply Forall_app in B as [_ B]. apply Forall_app in B as [B _].
    exact B. }
  assert (Ht : bytes_of (TrimSpace s) = rev r).
  { unfold TrimSpace. fold l. fold l1. fold r. apply bytes_of_string_of_bytes. exact Hb. }
  rewrite Ht. intros e He. split.
  - destruct (is_prefix e (rev r)) eqn:Hp; [| reflexivity].
    pose proof (trim_left_done (length l) l (le_n _) e He) as Hd. fold l1 in Hd.
    rewrite Hl1, (is_prefix_app _ _ _ Hp) in Hd. discriminate.
  - rewrite rev_involutive.
    apply trim_right_done; [rewrite length_rev; apply le_n | exact He].
Qed.

(** [strings.TrimSpace] is idempotent, so writing back the endpoint that
    [GetEndpoint] returns leaves the plugin unchanged. *)
Theorem TrimSpace_idempotent (s : string) :
  TrimSpace (TrimSpace s) = TrimSpace s /\
  forall p, SetEndpoint (SetEndpoint p s) (GetEndpoint (SetEndpoint p s)) =
            SetEndpoint p s.
Proof.
  assert (H : TrimSpace (TrimSpace s) = TrimSpace s).
  { pose proof (TrimSpace_trimmed s) as Hd.
    remember (TrimSpace s) as t eqn:Et. clear Et.
    cbv beta zeta delta [TrimSpace].
    assert (E1 : trim_left (length (bytes_of t)) (bytes_of t) = bytes_of t).
    { apply trim_left_noop. intros e He. exact (proj1 (Hd e He)). }
    rewrite E1.
    assert (E2 : trim_right_rev (length (bytes_of t)) (rev (bytes_of t)) =
                 rev (bytes_of t)).
    { apply trim_right_noop. intros e He. exact (proj2 (Hd e He)). }
    rewrite E2. rewrite rev_involutive. apply string_of_bytes_of. }
  split; [exact H |]. intros p.
  change (GetEndpoint (SetEndpoint p s)) with (TrimSpace s).
  unfold SetEndpoint. cbn [endpoint enabled batch batchSize stopChan_closed].
  rewrite H. reflexivity.
Qed.

(** ** Fingerprints decode to the digest *)

(** For a non-empty value, [fingerprint] is 64 lower-case hex digits that
    decode back to the SHA-256 digest of the value's bytes, so two values
    share a fingerprint only when their digests agree. *)
Theorem fingerprint_hex (v : string) (Hv : v <> "") :
  String.length (fingerprint v) = 64%nat /\
  Forall (fun c => is_lower_hex c = true) (list_ascii_of_string (fingerprint v)) /\
  DecodeHex (fingerprint v) = Sha256.Sum256 (bytes_of_string v).
Proof.
  split; [apply fingerprint_length, Hv |].
  unfold fingerprint. destruct (String.eqb_spec v ""); [contradiction |].
  apply EncodeToString_hex, Sum256_range.
Qed.

Lemma fingerprint_hex_witness :
  "unknown" <> "" /\
  String.length (fingerprint "unknown") = 64%nat /\
  Forall (fun c => is_lower_hex c = true) (list_ascii_of_string (fingerprint "unknown")) /\
  DecodeHex (fingerprint "unknown") = Sha256.Sum256 (bytes_of_string "unknown").
Proof.
  assert (H : "unknown" <> "") by discriminate.
  split; [exact H | exact (fingerprint_hex "unknown" H)].
Defined.

(** ** Well-formed fact rows *)

(** The shape of every row [HandleUsage] writes to [usage_requests]. *)
Definition row_wellformed (r : dbRecord) : Prop :=
  RateLimited r = (StatusCode r =? StatusTooManyRequests) /\
  CredentialLabel r <> "" /\
  hex64 (CredentialFingerprint r) /\
  (APIKeyHash r = "" \/ hex64 (APIKeyHash r)).

Lemma toDbRecord_wellformed normaliseDetail ctx now record :
  row_wellformed (toDbRecord normaliseDetail ctx now record).
Proof.
  unfold toDbRecord, row_wellformed. simpl.
  split; [reflexivity |]. split; [apply credentialLabel_nonempty |].
  split; [apply credentialFingerprint_hex64 |].
  destruct (String.eqb_spec (APIKey record) "") as [He | Hne].
  - left. rewrite He. reflexivity.
  - right. apply fingerprint_hex64, Hne.
Qed.

(** Every row that [HandleUsage] sends through [insert] is well formed:
    its rate-limit flag is [status = 429], its credential label is not
    empty, its credential fingerprint is 64 lower-case hex digits and its
    API-key hash is empty or 64 lower-case hex digits (the raw key is
    never stored).  Inserts and retention passes keep a table of such rows
    well formed. *)
Theorem usage_rows_wellformed (normaliseDetail : TokenStats -> TokenStats)
    (db : usageDB) (es : list UsageEvent)
    (Hdb : Forall row_wellformed (usage_requests db)) :
  Forall row_wellformed (usage_requests (run_inserts normaliseDetail db es)) /\
  forall rf rd now,
    Forall row_wellformed
      (usage_requests (applyRetention rf rd now (run_inserts normaliseDetail db es))).
Proof.
  assert (H : Forall row_wellformed (usage_requests (run_inserts normaliseDetail db es))).
  { revert db Hdb. induction es as [| e es IH]; intros db Hdb; simpl; [exact Hdb |].
    apply IH. rewrite insert_cases.
    destruct (insert_succeeds (event_faults e)); simpl; [| exact Hdb].
    apply Forall_app. split; [exact Hdb |]. constructor; [| constructor].
    destruct e as [[[ctx now] record] f]. apply toDbRecord_wellformed. }
  split; [exact H |]. intros rf rd now.
  destruct (Z.leb_spec rd 0) as [Hle | Hgt].
  - unfold applyRetention. apply Z.leb_le in Hle. rewrite Hle. exact H.
  - rewrite (proj1 (retention_shape rf rd now _ Hgt)).
    destruct (rf DeleteRequests); [exact H |].
    apply List.Forall_forall. intros r Hr. apply filter_In in Hr as [Hr _].
    exact (proj1 (List.Forall_forall _ _) H r Hr).
Qed.

Lemma usage_rows_wellformed_witness :
  Forall row_wellformed (usage_requests empty_db) /\
  Forall row_wellformed (usage_requests (run_inserts (fun d => d) empty_db qwen_events)).
Proof.
  assert (H : Forall row_wellformed (usage_requests empty_db)) by constructor.
  split; [exact H | exact (proj1 (usage_rows_wellformed (fun d => d) empty_db qwen_events H))].
Defined.

(** ** The management handlers *)

(** [PUT] of the OTLP status: a request that does not bind is answered
    with 400 and changes nothing; otherwise the answer echoes the
    requested value, while a later [GET] reports it only when a plugin is
    registered, and [true] when none is. *)
Theorem SetOTLPEnabled_handler (req : Bound bool) (g : GlobalPlugin) :
  let '(resp, g') := Management.SetOTLPEnabled req g in
  match req with
  | inl err => resp = (400, [("error", JString err)]) /\ g' = g
  | inr b =>
      resp = (200, [("enabled", JBool b);
                    ("message", JString "OTLP telemetry status updated")]) /\
      Management.GetOTLPEnabled g' =
        (200, [("enabled", JBool (match g with Some _ => b | None => true end))])
  end.
Proof. destruct req as [err | b]; [split; reflexivity |]. destruct g; split; reflexivity. Qed.

(** [PUT] of the OTLP endpoint: a request that does not bind is answered
    with 400 and changes nothing; otherwise the answer echoes the endpoint
    as sent, while a later [GET] reports it with surrounding white space
    removed when a plugin is registered, and the default endpoint when
    none is. *)
Theorem SetOTLPEndpoint_handler (req : Bound string) (g : GlobalPlugin) :
  let '(resp, g') := Management.SetOTLPEndpoint req g in
  match req with
  | inl err => resp = (400, [("error", JString err)]) /\ g' = g
  | inr s =>
      resp = (200, [("endpoint", JString s);
                    ("message", JString "OTLP endpoint updated")]) /\
      Management.GetOTLPEndpoint g' =
        (200, [("endpoint", JString (match g with
                                      | Some _ => TrimSpace s
                                      | None => "http://127.0.0.1:4318/v1/logs"
                                      end))])
  end.
Proof. destruct req as [err | s]; [split; reflexivity |]. destruct g; split; reflexivity. Qed.
